(** * Leveled compaction index of ydb-frostdb: file level, memory level, pruning

    A shallow embedding of [index/levels.go] (the [FileCompaction] and
    [inMemoryLevel] levels) and of the column-chunk pruning code of package
    [expr] ([BinaryScalarOperation], [Min], [Max], [NullCount], [compare]),
    together with the properties of the design document that concern them.

    Conventions.
    - Go integers are [Z]; where the source converts or may overflow the
      wrap-around is written out ([Go.to_int64], [Go.to_uint64]).
    - Bytes are [Byte.byte]; a file content is a [list byte].
    - The file system is an explicit store that every operation threads.
    - The columnar codec (parquet-go, dynparquet) is an interface: a type
      class [Codec]; a compaction function is a program over one effect,
      writing to the [io.Writer] it is handed. *)

From Stdlib Require Import ZArith List String Ascii Lia Bool.
From Stdlib Require Import Strings.Byte.
Import ListNotations.
Open Scope string_scope.
Open Scope list_scope.
Open Scope Z_scope.

(* ================================================================== *)
(** ** Go runtime and standard library primitives used by the source *)
(* ================================================================== *)

Module Go.

(** [int64(x)] and [uint64(x)]: two's complement wrap-around. *)
Definition to_uint64 (z : Z) : Z := z mod 2 ^ 64.
Definition to_int64 (z : Z) : Z := (z + 2 ^ 63) mod 2 ^ 64 - 2 ^ 63.

Definition MaxInt64 : Z := 2 ^ 63 - 1.
Definition MinInt64 : Z := - 2 ^ 63.

(** The result of a Go function that can panic. *)
Inductive Outcome (A : Type) : Type :=
| Returned (a : A)
| Panicked (msg : string).
Arguments Returned {A} a.
Arguments Panicked {A} msg.

(** A Go result pair [(value, error)] of which one side is meaningful. *)
Inductive Result (A : Type) : Type :=
| Ok (a : A)
| Err (msg : string).
Arguments Ok {A} a.
Arguments Err {A} msg.

(** [error] values carry their message; [None] is [nil]. *)
Definition error := option string.
Definition errorf (msg : string) : error := Some msg.
Definition is_nil (e : error) : bool :=
  match e with None => true | Some _ => false end.

(** [byte(x)]: the low eight bits. *)
Definition byte_of_Z (z : Z) : byte :=
  match Byte.of_N (Z.to_N (z mod 256)) with
  | Some b => b
  | None => x00
  end.
Definition Z_of_byte (b : byte) : Z := Z.of_N (Byte.to_N b).

(** [binary.LittleEndian.PutUint64(b, v)] on a fresh 8-byte slice:
    [b[i] = byte(v >> (8*i))]. *)
Definition PutUint64 (v : Z) : list byte :=
  map (fun i => byte_of_Z (Z.shiftr v (8 * Z.of_nat i))) (seq 0 8).

(** [binary.LittleEndian.Uint64(b)]:
    [uint64(b[0]) | uint64(b[1])<<8 | ... | uint64(b[7])<<56]. *)
Fixpoint le_value (bs : list byte) : Z :=
  match bs with
  | [] => 0
  | b :: rest => Z.lor (Z_of_byte b) (Z.shiftl (le_value rest) 8)
  end.
Definition Uint64 (b : list byte) : Z := le_value (firstn 8 b).

(** Decimal digits. *)
Definition digit_char (d : Z) : ascii := ascii_of_N (48 + Z.to_N d)%N.
Definition digit_val (c : ascii) : option Z :=
  let n := Z.of_N (N_of_ascii c) in
  if (48 <=? n) && (n <=? 57) then Some (n - 48) else None.

(** Decimal rendering of a non-negative integer, most significant digit
    first; [fuel] bounds the number of digits (20 suffice for uint64). *)
Fixpoint digits_acc (fuel : nat) (n : Z) (acc : string) : string :=
  match fuel with
  | O => acc
  | S fuel' =>
      let acc' := String (digit_char (n mod 10)) acc in
      if n / 10 =? 0 then acc' else digits_acc fuel' (n / 10) acc'
  end.

(** [fmt.Sprintf("%v", x)] for [x : uint64]. *)
Definition FormatUint (n : Z) : string := digits_acc 20 n "".

Fixpoint zeros (k : nat) : string :=
  match k with O => "" | S k' => String "0" (zeros k') end.

(** [fmt.Sprintf("%020d", id)] for a non-negative [id]. *)
Definition Format020d (id : Z) : string :=
  let s := FormatUint id in
  (zeros (20 - String.length s) ++ s)%string.

(** Left-to-right accumulation of decimal digits; [None] on a character
    that is not a digit. *)
Fixpoint parse_digits (s : string) (acc : Z) : option Z :=
  match s with
  | EmptyString => Some acc
  | String c rest =>
      match digit_val c with
      | Some d => parse_digits rest (acc * 10 + d)
      | None => None
      end
  end.

(** [strconv.Atoi] with a 64-bit [int]: an optional sign, at least one
    decimal digit, nothing else, and the value must fit int64; [None]
    stands for a non-nil error (syntax or range). *)
Definition Atoi (s : string) : option Z :=
  match s with
  | EmptyString => None
  | String c rest =>
      let neg := Ascii.eqb c "-" in
      let digits := if neg || Ascii.eqb c "+" then rest else s in
      match digits with
      | EmptyString => None
      | _ =>
          match parse_digits digits 0 with
          | None => None
          | Some un =>
              let v := if neg then - un else un in
              if (MinInt64 <=? v) && (v <=? MaxInt64) then Some v else None
          end
      end
  end.

(** [filepath.Ext] on a base name: the suffix starting at the last dot,
    empty when there is none. *)
Fixpoint Ext (s : string) : string :=
  match s with
  | EmptyString => ""
  | String c rest =>
      let e := Ext rest in
      if negb (String.eqb e "") then e
      else if Ascii.eqb c "." then s
      else ""
  end.

End Go.

(* ================================================================== *)
(** ** The file system the level works on *)
(* ================================================================== *)

(** A model of the host file system as far as [index/levels.go] uses it:
    directories, names that point to inodes (so that [os.Link] shares the
    content), and open file handles with a position.  A path is kept as the
    pair that [filepath.Join (dir, base)] is built from. *)
Module VFS.
Import Go.

Definition Path : Type := (string * string)%type.

Definition Join (dir base : string) : Path := (dir, base).
Definition Base (p : Path) : string := snd p.
Definition path_string (p : Path) : string :=
  (fst p ++ "/" ++ snd p)%string.
Definition path_eqb (p q : Path) : bool :=
  String.eqb (fst p) (fst q) && String.eqb (snd p) (snd q).

Record FS : Type := mkFS {
  dirs   : list string;
  names  : list (Path * nat);
  inodes : list (list byte)
}.

Definition empty : FS := mkFS [] [] [].

(** [os.File]: the name it was opened under, its inode, the position of
    the next [Write], whether it was opened for writing, and whether it
    has been closed. *)
Record File : Type := mkFile {
  fname     : Path;
  fino      : nat;
  fpos      : Z;
  fwritable : bool;
  fclosed   : bool
}.

Definition Name (h : File) : Path := fname h.

Definition dir_exists (fs : FS) (d : string) : bool :=
  existsb (String.eqb d) (dirs fs).

Definition lookup_name (fs : FS) (p : Path) : option nat :=
  match find (fun e => path_eqb (fst e) p) (names fs) with
  | Some e => Some (snd e)
  | None => None
  end.

Definition content (fs : FS) (ino : nat) : list byte :=
  nth ino (inodes fs) [].

Fixpoint update_nth {A : Type} (n : nat) (x : A) (l : list A) : list A :=
  match l, n with
  | [], _ => []
  | _ :: t, O => x :: t
  | a :: t, S n' => a :: update_nth n' x t
  end.

(** [os.MkdirAll]: a directory that exists is left alone; otherwise it
    fails on the empty path and when the path names a regular file. *)
Definition MkdirAll (fs : FS) (d : string) : FS * error :=
  if dir_exists fs d then (fs, None)
  else if String.eqb d "" then (fs, errorf "mkdir: no such file or directory")
  else if existsb (fun e => String.eqb (path_string (fst e)) d) (names fs)
  then (fs, errorf "mkdir: not a directory")
  else (mkFS (d :: dirs fs) (names fs) (inodes fs), None).

(** [os.OpenFile (path, os.O_CREATE|os.O_RDWR, perm)]: the directory must
    exist and the path must not be a directory; an existing file is
    opened as it is (no truncation), a missing one is created empty.  The
    handle starts at position 0. *)
Definition OpenFile (fs : FS) (p : Path) : FS * Result File :=
  if negb (dir_exists fs (fst p))
  then (fs, Err "open: no such file or directory")
  else if dir_exists fs (path_string p)
  then (fs, Err "open: is a directory")
  else match lookup_name fs p with
       | Some ino => (fs, Ok (mkFile p ino 0 true false))
       | None =>
           let ino := List.length (inodes fs) in
           (mkFS (dirs fs) (names fs ++ [(p, ino)]) (inodes fs ++ [[]]),
            Ok (mkFile p ino 0 true false))
       end.

(** [os.Open (path)]: read-only, the file must exist. *)
Definition Open (fs : FS) (p : Path) : Result File :=
  match lookup_name fs p with
  | Some ino => Ok (mkFile p ino 0 false false)
  | None => Err "open: no such file or directory"
  end.

(** [os.Link (oldname, newname)]. *)
Definition Link (fs : FS) (old new : Path) : FS * error :=
  match lookup_name fs old with
  | None => (fs, errorf "link: no such file or directory")
  | Some ino =>
      match lookup_name fs new with
      | Some _ => (fs, errorf "link: file exists")
      | None =>
          if negb (dir_exists fs (fst new))
          then (fs, errorf "link: no such file or directory")
          else (mkFS (dirs fs) (names fs ++ [(new, ino)]) (inodes fs), None)
      end
  end.

(** [os.RemoveAll (dir)] on a flat directory: the directory and the names
    in it go; inodes stay for the handles and links that still use them. *)
Definition RemoveAll (fs : FS) (d : string) : FS * error :=
  (mkFS (filter (fun x => negb (String.eqb x d)) (dirs fs))
        (filter (fun e => negb (String.eqb (fst (fst e)) d)) (names fs))
        (inodes fs),
   None).

(** The bytes of [data] after [p] has been written at [pos]; a gap
    between the end of the file and [pos] reads as zeros. *)
Definition write_at (data : list byte) (pos : nat) (p : list byte)
  : list byte :=
  firstn pos data ++ repeat x00 (pos - List.length data) ++ p
    ++ skipn (pos + List.length p) data.

(** [os.File.Write (p)]: writes all of [p] at the handle's position
    and advances it, or writes nothing and fails: on a closed or
    read-only handle, and when the file would outgrow the largest offset
    (EFBIG). *)
Definition Write (fs : FS) (h : File) (p : list byte)
  : FS * File * Z * error :=
  if fclosed h then (fs, h, 0, errorf "write: file already closed")
  else if negb (fwritable h) then (fs, h, 0, errorf "write: bad file descriptor")
  else if MaxInt64 <? fpos h + Z.of_nat (List.length p)
  then (fs, h, 0, errorf "write: file too large")
  else
    let data := write_at (content fs (fino h)) (Z.to_nat (fpos h)) p in
    (mkFS (dirs fs) (names fs) (update_nth (fino h) data (inodes fs)),
     mkFile (fname h) (fino h) (fpos h + Z.of_nat (List.length p))
            (fwritable h) false,
     Z.of_nat (List.length p), None).

(** The [n] bytes of [data] from [off] on, or as many as there are. *)
Definition slice (data : list byte) (off n : nat) : list byte :=
  firstn n (skipn off data).

(** [os.File.ReadAt (b, off)] with [len(b) = n]: the bytes read and
    the error; fewer than [n] bytes come with [io.EOF]. *)
Definition ReadAt (fs : FS) (h : File) (n : nat) (off : Z)
  : list byte * error :=
  if fclosed h then ([], errorf "read: file already closed")
  else if off <? 0 then ([], errorf "readat: negative offset")
  else
    let got := slice (content fs (fino h)) (Z.to_nat off) n in
    (got, if (List.length got <? n)%nat then errorf "EOF" else None).

Definition Sync (h : File) : error :=
  if fclosed h then errorf "sync: file already closed" else None.

Definition Close (h : File) : File * error :=
  if fclosed h then (h, errorf "close: file already closed")
  else (mkFile (fname h) (fino h) (fpos h) (fwritable h) true, None).

(** [d.Info().Size()] of a directory entry, an int64. *)
Definition Size (fs : FS) (ino : nat) : Z :=
  to_int64 (Z.of_nat (List.length (content fs ino))).

(** Insertion of a directory entry in lexical order of its base name. *)
Fixpoint insert_entry (e : Path * nat) (l : list (Path * nat))
  : list (Path * nat) :=
  match l with
  | [] => [e]
  | x :: t =>
      if String.leb (snd (fst e)) (snd (fst x)) then e :: l
      else x :: insert_entry e t
  end.

(** The regular files of directory [d] in the order [filepath.WalkDir]
    visits them (lexical); [None] when [d] does not exist. *)
Definition ReadDir (fs : FS) (d : string) : option (list (Path * nat)) :=
  if dir_exists fs d
  then Some (fold_right insert_entry []
               (filter (fun e => String.eqb (fst (fst e)) d) (names fs)))
  else None.

(** The bytes an [io.SectionReader] over [h] at [off] of List.length [n]
    yields to a reader that needs all of them; an error when the handle
    is closed or the range is not inside the file. *)
Definition ReadSection (fs : FS) (h : File) (off n : Z)
  : Result (list byte) :=
  if fclosed h then Err "read: file already closed"
  else if (off <? 0) || (n <? 0)
          || (Size fs (fino h) <? off + n)
  then Err "read: section out of range"
  else Ok (slice (content fs (fino h)) (Z.to_nat off) (Z.to_nat n)).

(** Every name of the file system points to an inode it has. *)
Definition well_formed (fs : FS) : Prop :=
  forall p ino, lookup_name fs p = Some ino -> (ino < List.length (inodes fs))%nat.

(** The handle [h] after [k] more bytes have been written through it. *)
Definition advanced (h : File) (k : Z) : File :=
  mkFile (fname h) (fino h) (fpos h + k) (fwritable h) (fclosed h).

(** The file system after the content of inode [ino] became [data]. *)
Definition stored (fs : FS) (ino : nat) (data : list byte) : FS :=
  mkFS (dirs fs) (names fs) (update_nth ino data (inodes fs)).

(** A handle of this file system that no [Write] has moved past the end
    of its file. *)
Definition valid_handle (fs : FS) (h : File) : Prop :=
  (fino h < List.length (inodes fs))%nat
  /\ 0 <= fpos h <= Z.of_nat (List.length (content fs (fino h))).

End VFS.

(* ================================================================== *)
(** ** The codec and the parts (external collaborators) *)
(* ================================================================== *)

Module Parquet.
Import Go.

(** [parquet.WriterOption]; the level passes only key/value metadata. *)
Inductive WriterOption : Type :=
| KeyValueMetadata (key value : string).

(** What the level uses of parquet-go and dynparquet.  [OpenFile] is
    [parquet.OpenFile] applied to the bytes of the section it is given,
    [Lookup] the key/value metadata of an opened file,
    [NewSerializedBuffer] and [ReaderFromBytes] the dynparquet wrappers,
    [ParquetFile] is [buf.ParquetFile ()]. *)
Class Codec : Type := {
  File : Type;
  SerializedBuffer : Type;
  OpenFile : list byte -> Result File;
  Lookup : File -> string -> option string;
  NewSerializedBuffer : File -> Result SerializedBuffer;
  ParquetFile : SerializedBuffer -> File;
  ReaderFromBytes : list byte -> Result SerializedBuffer
}.
End Parquet.

Module Parts.
Import Go.

(** A release function handed to [parts.WithRelease]: the [Done] of the
    level's wait group, or a callback of the caller. *)
Inductive ReleaseFunc : Type :=
| LevelDone
| Callback (id : nat).

Inductive Option : Type :=
| WithRelease (release : ReleaseFunc).

Section WithCodec.
Context {codec : Parquet.Codec}.

(** Modelled from the spec: package [parts] is not among the sources.
    A part is an immutable handle with a transaction identifier
    (uint64), a codec-backed row group and an ordered list of release
    hooks; [TX] returns the stamped identifier. *)
Record Part : Type := mkPart {
  TX : Z;
  Buf : Parquet.SerializedBuffer;
  hooks : list ReleaseFunc
}.

Definition releaseOf (o : Option) : ReleaseFunc :=
  match o with WithRelease r => r end.

(** Modelled from the spec: [NewPart (tx, serializedBuffer, options)],
    the options being zero or more release hooks. *)
Definition NewParquetPart (tx : Z) (buf : Parquet.SerializedBuffer)
             (options : list Option) : Part :=
  mkPart tx buf (map releaseOf options).

(** Modelled from the spec: [Release] drops one reference, and when the
    last one is dropped the hooks fire in registration order.  A part
    the level has just built holds one reference, so [Release] on it
    yields all its hooks, in order, for the caller to run. *)
Definition Release (p : Part) : list ReleaseFunc := hooks p.
End WithCodec.
End Parts.

(* ================================================================== *)
(** ** index/levels.go *)
(* ================================================================== *)

Module Index.
Import Go Parquet Parts.

Definition IndexFileExtension : string := ".idx".
Definition ParquetCompactionTXKey : string := "compaction_tx".

Inductive LogLevel : Type := Warn | Error.

(** What lies outside the level: the file system, the lines its logger
    has written, and the callers' release callbacks that have run. *)
Record World : Type := mkWorld {
  fs       : VFS.FS;
  logged   : list (LogLevel * string);
  released : list nat
}.

Definition set_fs (w : World) (fs' : VFS.FS) : World :=
  mkWorld fs' (logged w) (released w).
Definition Log (w : World) (l : LogLevel) (msg : string) : World :=
  mkWorld (fs w) (logged w ++ [(l, msg)]) (released w).
Definition LogErr (w : World) (msg : string) (err : error) : World :=
  match err with
  | None => w
  | Some _ => Log w Error msg
  end.

Section Levels.
Context {codec : Codec}.

(** What a [Compaction] does with the [io.Writer] it is given: it
    returns [(pre, err)], or writes [p] and goes on with what [Write]
    returned. *)
Inductive Writes : Type :=
| Done (pre : Z) (err : error)
| WriteThen (p : list byte) (k : Z -> error -> Writes).

(** [type Compaction func (w io.Writer, compact []parts.Part,
    options ...parquet.WriterOption) (int64, error)]. *)
Definition Compaction : Type :=
  list Part -> list WriterOption -> Writes.

Record FileCompaction : Type := mkFileCompaction {
  dir        : string;
  compact    : Compaction;
  maxSize    : Z;
  indexFiles : list VFS.File;
  offset     : Z;
  parts      : Z
}.

Definition set_files (f : FileCompaction) (l : list VFS.File) (off : Z)
  : FileCompaction :=
  mkFileCompaction (dir f) (compact f) (maxSize f) l off (parts f).
Definition set_offset (f : FileCompaction) (off : Z) : FileCompaction :=
  set_files f (indexFiles f) off.
Definition set_parts (f : FileCompaction) (n : Z) : FileCompaction :=
  mkFileCompaction (dir f) (compact f) (maxSize f) (indexFiles f)
                   (offset f) n.

(** The handle [f.file ()] points to is replaced by its new state. *)
Definition set_file (f : FileCompaction) (h : VFS.File) : FileCompaction :=
  set_files f (removelast (indexFiles f) ++ [h]) (offset f).

Definition NewFileCompaction (w : World) (dir : string) (maxSize : Z)
           (compact : Compaction) : World * Result FileCompaction :=
  let f := mkFileCompaction dir compact maxSize [] 0 0 in
  match VFS.MkdirAll (fs w) dir with
  | (fs', Some e) => (set_fs w fs', Err e)
  | (fs', None) => (set_fs w fs', Ok f)
  end.

Definition MaxSize (f : FileCompaction) : Z := maxSize f.

Definition createIndexFile (w : World) (f : FileCompaction) (id : Z)
  : World * FileCompaction * Result VFS.File :=
  match VFS.OpenFile (fs w)
          (VFS.Join (dir f) (Format020d id ++ IndexFileExtension)%string) with
  | (fs', Err e) => (set_fs w fs', f, Err e)
  | (fs', Ok file) =>
      (set_fs w fs', set_files f (indexFiles f ++ [file]) 0, Ok file)
  end.

Definition openIndexFile (w : World) (f : FileCompaction) (path : VFS.Path)
  : FileCompaction * Result VFS.File :=
  match VFS.Open (fs w) path with
  | Err e => (f, Err e)
  | Ok file =>
      (set_files f (indexFiles f ++ [file]) (offset f), Ok file)
  end.

(** [f.indexFiles[len(f.indexFiles)-1]]: panics on an empty list. *)
Definition file (f : FileCompaction) : Outcome VFS.File :=
  match indexFiles f with
  | [] => Panicked "index out of range [-1]"
  | h :: t => Returned (last t h)
  end.

Definition Sync (f : FileCompaction) : Outcome error :=
  match file f with
  | Panicked m => Panicked m
  | Returned h => Returned (VFS.Sync h)
  end.

(** The compaction function run against
    [accountingWriter{w: file, n: n}]: every [Write] goes to the file
    and adds what was written to [n]. *)
Fixpoint runAccounted (prog : Writes) (fs : VFS.FS) (h : VFS.File) (n : Z)
  : VFS.FS * VFS.File * Z * (Z * error) :=
  match prog with
  | Done pre err => (fs, h, n, (pre, err))
  | WriteThen p k =>
      match VFS.Write fs h p with
      | (fs', h', m, err) =>
          runAccounted (k m err) fs' h' (to_int64 (n + to_int64 m))
      end
  end.

(** The bytes that reach the file while the compaction function runs:
    the payload of the record. *)
Fixpoint payloadOf (prog : Writes) (fs : VFS.FS) (h : VFS.File)
  : list byte :=
  match prog with
  | Done _ _ => []
  | WriteThen p k =>
      match VFS.Write fs h p with
      | (fs', h', m, err) =>
          firstn (Z.to_nat m) p ++ payloadOf (k m err) fs' h'
      end
  end.

(** The level has an active file, its handle is one of the file
    system, and the write offset has not passed the handle. *)
Definition tracked (w : World) (f : FileCompaction) : Prop :=
  exists h, file f = Returned h /\ VFS.valid_handle (fs w) h
            /\ 0 <= offset f <= VFS.fpos h.

Definition CompactResult : Type := (list Part * Z * Z * error)%type.

Definition firstTX (compact : list Part) : Z :=
  match compact with
  | p :: _ => TX p
  | [] => 0
  end.

(** [FileCompaction.Compact]; the slice of parts is [toCompact] here,
    [compact] being the field of the level. *)
Definition Compact (w : World) (f : FileCompaction) (toCompact : list Part)
           (options : list Option)
  : World * FileCompaction * Outcome CompactResult :=
  if (List.length toCompact =? 0)%nat
  then (w, f, Returned ([], 0, 0, errorf "no parts to compact"))
  else
    match file f with
    | Panicked m => (w, f, Panicked m)
    | Returned h =>
        match runAccounted
                (compact f toCompact
                   [KeyValueMetadata ParquetCompactionTXKey
                      (FormatUint (firstTX toCompact))])
                (fs w) h 0 with
        | (fs1, h1, n, (preCompactionSize, err)) =>
            let w1 := set_fs w fs1 in
            let f1 := set_file f h1 in
            match err with
            | Some e => (w1, f1, Returned ([], 0, 0, Some e))
            | None =>
                let prevOffset := offset f1 in
                let size := PutUint64 (to_uint64 n) in
                match VFS.Write fs1 h1 size with
                | (fs2, h2, n8, _) =>
                    let w2 := set_fs w1 fs2 in
                    let f2 := set_file f1 h2 in
                    if negb (n8 =? 8)
                    then (w2, f2,
                          Returned ([], 0, 0,
                                    errorf "failed to write size to file"))
                    else
                      let f3 :=
                        set_offset f2
                          (to_int64 (offset f2 + to_int64 (n + 8))) in
                      match VFS.Sync h2 with
                      | Some _ =>
                          (w2, f3,
                           Returned ([], 0, 0,
                                     errorf "failed to sync file"))
                      | None =>
                          match VFS.ReadSection fs2 h2 prevOffset n with
                          | Err _ =>
                              (w2, f3,
                               Returned ([], 0, 0,
                                 errorf "failed to open file after compaction"))
                          | Ok bytes =>
                              match OpenFile bytes with
                              | Err _ =>
                                  (w2, f3,
                                   Returned ([], 0, 0,
                                     errorf "failed to open file after compaction"))
                              | Ok pf =>
                                  match NewSerializedBuffer pf with
                                  | Err e =>
                                      (w2, f3, Returned ([], 0, 0, Some e))
                                  | Ok buf =>
                                      (w2, set_parts f3 (parts f3 + 1),
                                       Returned
                                         ([NewParquetPart (firstTX toCompact) buf
                                             (options ++ [WithRelease LevelDone])],
                                          preCompactionSize, n, None))
                                  end
                              end
                          end
                      end
                end
            end
        end
    end.

(** The loop of [Snapshot] over [f.indexFiles]: [i] is the index of the
    head of [files], [n] the length of the whole list.  [None] says the
    loop ran to its end, [Some err] that it returned [err] from inside
    (nil for the empty active file). *)
Fixpoint snapshotLoop (fs : VFS.FS) (f : FileCompaction)
         (files : list VFS.File) (i n : nat) (dir : string)
  : VFS.FS * option (Outcome error) :=
  match files with
  | [] => (fs, None)
  | file :: rest =>
      let link (_ : unit) :=
        match VFS.Link fs (VFS.Name file)
                (VFS.Join dir (VFS.Base (VFS.Name file))) with
        | (fs', Some e) => (fs', Some (Returned (Some e)))
        | (fs', None) => snapshotLoop fs' f rest (S i) n dir
        end in
      if (i =? n - 1)%nat then
        if offset f >? 0 then
          match Sync f with
          | Panicked m => (fs, Some (Panicked m))
          | Returned (Some e) => (fs, Some (Returned (Some e)))
          | Returned None => link tt
          end
        else (fs, Some (Returned None))
      else link tt
  end.

(** [FileCompaction.Snapshot]; the parts and the writer are ignored. *)
Definition Snapshot (w : World) (f : FileCompaction) (dir : string)
  : World * FileCompaction * Outcome error :=
  match VFS.MkdirAll (fs w) dir with
  | (fs0, Some e) => (set_fs w fs0, f, Returned (Some e))
  | (fs0, None) =>
      match snapshotLoop fs0 f (indexFiles f) 0
              (List.length (indexFiles f)) dir with
      | (fs1, Some r) => (set_fs w fs1, f, r)
      | (fs1, None) =>
          match createIndexFile (set_fs w fs1) f
                  (Z.of_nat (List.length (indexFiles f))) with
          | (w2, f2, Err e) => (w2, f2, Returned (Some e))
          | (w2, f2, Ok _) => (w2, f2, Returned None)
          end
      end
  end.

(** Hard-linking the files of a list into [dir] one after the other, up to
    the first failure. *)
Fixpoint linkAll (fs : VFS.FS) (files : list VFS.File) (dir : string)
    : VFS.FS * error :=
  match files with
  | [] => (fs, None)
  | file :: rest =>
      match VFS.Link fs (VFS.Name file)
              (VFS.Join dir (VFS.Base (VFS.Name file))) with
      | (fs', Some e) => (fs', Some e)
      | (fs', None) => linkAll fs' rest dir
      end
  end.

(** Closing every file of the level, logging what fails. *)
Fixpoint closeAll (w : World) (files : list VFS.File)
  : World * list VFS.File :=
  match files with
  | [] => (w, [])
  | file :: rest =>
      match VFS.Close file with
      | (file', err) =>
          let (w', rest') :=
            closeAll (LogErr w "failed to close level file" err) rest in
          (w', file' :: rest')
      end
  end.

(** [FileCompaction.Reset].  [f.parts.Wait ()] returns only once the
    counter is zero: [None] stands for a call that stays blocked. *)
Definition Reset (w : World) (f : FileCompaction)
  : option (World * FileCompaction) :=
  if negb (parts f =? 0) then None
  else
    let (w1, _) := closeAll w (indexFiles f) in
    let (fs2, err2) := VFS.RemoveAll (fs w1) (dir f) in
    let w2 := LogErr (set_fs w1 fs2) "failed to remove level directory" err2 in
    let (fs3, err3) := VFS.MkdirAll (fs w2) (dir f) in
    let w3 := LogErr (set_fs w2 fs3) "failed to create level directory" err3 in
    let f3 := set_files f [] (offset f) in
    match createIndexFile w3 f3 (Z.of_nat (List.length (indexFiles f3))) with
    | (w4, f4, Err e) =>
        Some (Log w4 Error "failed to create new level file", f4)
    | (w4, f4, Ok _) => Some (w4, f4)
    end.

(** The hooks of a part the level builds with the caller's [options]. *)
Definition levelHooks (options : list Option) : list ReleaseFunc :=
  map releaseOf (options ++ [WithRelease LevelDone]).

(** Running the hooks [Release] yields: the level's [Done] decrements
    the wait group, which panics below zero; a callback of the caller
    is recorded.  [Some msg] is a panic. *)
Fixpoint fire (w : World) (f : FileCompaction) (hs : list ReleaseFunc)
  : World * FileCompaction * option string :=
  match hs with
  | [] => (w, f, None)
  | LevelDone :: rest =>
      if parts f - 1 <? 0
      then (w, f, Some "sync: negative WaitGroup counter")
      else fire w (set_parts f (parts f - 1)) rest
  | Callback id :: rest =>
      fire (mkWorld (fs w) (logged w) (released w ++ [id])) f rest
  end.

(** [for _, part := range fileParts { part.Release () }]. *)
Fixpoint releaseAll (w : World) (f : FileCompaction) (ps : list Part)
  : World * FileCompaction * option string :=
  match ps with
  | [] => (w, f, None)
  | p :: rest =>
      match fire w f (Release p) with
      | (w', f', Some m) => (w', f', Some m)
      | (w', f', None) => releaseAll w' f' rest
      end
  end.

(** How the loop over the records of one file ended. *)
Inductive Loop : Type :=
| Finished (err : error)
| OutOfFuel.

(** The loop [for offset := info.Size (); offset > 0; { ... }] of
    [recover] over one file, one record per iteration, last record
    first.  [fuel] bounds the iterations of the model;
    [recoverRecords_fuel] shows that the size of the file is enough. *)
Fixpoint recoverRecords (fuel : nat) (w : World) (f : FileCompaction)
         (file : VFS.File) (offset : Z) (options : list Option)
         (fileParts : list Part)
  : World * FileCompaction * list Part * Loop :=
  match fuel with
  | O => (w, f, fileParts, OutOfFuel)
  | S fuel' =>
      if offset >? 0 then
        let offset1 := offset - 8 in
        let size := fst (VFS.ReadAt (fs w) file 8 offset1) in
        if negb (List.length size =? 8)%nat
        then (w, f, fileParts,
              Finished (errorf "failed to read size from file"))
        else
          let parquetSize := to_int64 (Uint64 size) in
          let offset2 := to_int64 (offset1 - parquetSize) in
          match VFS.ReadSection (fs w) file offset2 parquetSize with
          | Err e => (w, f, fileParts, Finished (Some e))
          | Ok bytes =>
              match OpenFile bytes with
              | Err e => (w, f, fileParts, Finished (Some e))
              | Ok pf =>
                  match NewSerializedBuffer pf with
                  | Err e => (w, f, fileParts, Finished (Some e))
                  | Ok buf =>
                      let (w', tx) :=
                        match Lookup (ParquetFile buf)
                                ParquetCompactionTXKey with
                        | None =>
                            (Log w Warn
                               "failed to find compaction_tx metadata", 0)
                        | Some txstr =>
                            match Atoi txstr with
                            | Some v => (w, v)
                            | None =>
                                (Log w Warn
                                   "failed to parse compaction_tx metadata", 0)
                            end
                        end in
                      recoverRecords fuel' w' (set_parts f (parts f + 1))
                        file offset2 options
                        (fileParts ++
                           [NewParquetPart (to_uint64 tx) buf
                              (options ++ [WithRelease LevelDone])])
                  end
              end
          end
      else (w, f, fileParts, Finished None)
  end.

(** How the directory walk ended: it ran out of fuel in a file, it
    panicked, or it returned the parts recovered and an error. *)
Inductive Walk : Type :=
| WalkOutOfFuel
| WalkPanicked (msg : string)
| WalkReturned (recovered : list Part) (err : error).

(** The callback of [filepath.WalkDir] applied to the regular files of
    the level directory in turn; a non-nil error ends the walk.  The level
    directory is flat and its own name has no [.idx] extension, so the
    visit of the root, which the callback leaves at once, is not listed. *)
Fixpoint walk (entries : list (VFS.Path * nat)) (w : World)
         (f : FileCompaction) (options : list Option)
         (recovered : list Part)
  : World * FileCompaction * Walk :=
  match entries with
  | [] => (w, f, WalkReturned recovered None)
  | (path, ino) :: rest =>
      if negb (String.eqb (Ext (VFS.Base path)) IndexFileExtension)
      then walk rest w f options recovered
      else
        let size := VFS.Size (fs w) ino in
        if size =? 0 then walk rest w f options recovered
        else
          match openIndexFile w f path with
          | (f1, Err e) =>
              (w, f1, WalkReturned recovered
                        (errorf "failed to open file"))
          | (f1, Ok opened) =>
              match recoverRecords (Z.to_nat size + 1) w f1 opened size
                      options [] with
              | (w2, f2, _, OutOfFuel) => (w2, f2, WalkOutOfFuel)
              | (w2, f2, fileParts, Finished (Some e)) =>
                  match releaseAll w2 f2 fileParts with
                  | (w3, f3, Some m) => (w3, f3, WalkPanicked m)
                  | (w3, f3, None) =>
                      match file f3 with
                      | Panicked m => (w3, f3, WalkPanicked m)
                      | Returned h =>
                          let w4 :=
                            LogErr w3
                              "failed to close level file after failed recovery"
                              (snd (VFS.Close h)) in
                          (w4,
                           set_files f3 (removelast (indexFiles f3))
                             (offset f3),
                           WalkReturned recovered (Some e))
                      end
                  end
              | (w2, f2, fileParts, Finished None) =>
                  walk rest w2 f2 options (recovered ++ fileParts)
              end
          end
  end.

(** How a call of [recover] ended. *)
Inductive Recovered : Type :=
| RecoverOutOfFuel
| RecoverPanicked (msg : string)
| RecoverReturned (recovered : list Part) (err : error).

(** [FileCompaction.recover]: the walk over the level directory, then
    the deferred creation of a new active file, then the return. *)
Definition recover (w : World) (f : FileCompaction) (options : list Option)
  : World * FileCompaction * Recovered :=
  let '(w1, f1, r) :=
    match VFS.ReadDir (fs w) (dir f) with
    | None =>
        (w, f, WalkReturned [] (errorf "lstat: no such file or directory"))
    | Some entries => walk entries w f options []
    end in
  let '(w2, f2) :=
    match createIndexFile w1 f1 (Z.of_nat (List.length (indexFiles f1))) with
    | (w2, f2, Err _) =>
        (Log w2 Error "failed to create new level file", f2)
    | (w2, f2, Ok _) => (w2, f2)
    end in
  match r with
  | WalkOutOfFuel => (w2, f2, RecoverOutOfFuel)
  | WalkPanicked m => (w2, f2, RecoverPanicked m)
  | WalkReturned _ (Some e) => (w2, f2, RecoverReturned [] (Some e))
  | WalkReturned recovered None => (w2, f2, RecoverReturned recovered None)
  end.

(** *** The round trip through the files *)

(** A sequence of calls of [Compact], one for each element of [batches];
    the parts they returned, in order, when every call succeeded. *)
Fixpoint compactAll (w : World) (f : FileCompaction)
           (batches : list (list Part)) (options : list Option)
    : option (World * FileCompaction * list Part) :=
  match batches with
  | [] => Some (w, f, [])
  | toCompact :: rest =>
      match Compact w f toCompact options with
      | (w1, f1, Returned (ps, _, _, None)) =>
          match compactAll w1 f1 rest options with
          | Some (w2, f2, ps') => Some (w2, f2, ps ++ ps')
          | None => None
          end
      | _ => None
      end
  end.

(** The layout of one record: the payload, then its length in eight
    little-endian bytes. *)
Definition record (payload : list byte) : list byte :=
  payload ++ PutUint64 (Z.of_nat (List.length payload)).

Definition recordsOf (payloads : list (list byte)) : list byte :=
  List.concat (map record payloads).

(** What [recover] makes of a stamp written by [Compact]: [strconv.Atoi]
    reads it back up to the largest int64 and rejects it above. *)
Definition recoveredStamp (tx : Z) : Z :=
  if tx <=? MaxInt64 then tx else 0.

Definition asRecovered (p : Part) : Part :=
  mkPart (recoveredStamp (TX p)) (Buf p) (hooks p).

(** The contract of a compaction function with the codec, as far as the
    level relies on it: when what the function wrote opens as a row group, the
    row group carries the stamp the function was asked to write under
    [compaction_tx]. *)
Definition honoursMetadata (c : Compaction) : Prop :=
  forall toCompact tx fs h pf buf,
    OpenFile
      (payloadOf
         (c toCompact [KeyValueMetadata ParquetCompactionTXKey (FormatUint tx)])
         fs h) = Ok pf ->
    NewSerializedBuffer pf = Ok buf ->
    Lookup (ParquetFile buf) ParquetCompactionTXKey = Some (FormatUint tx).

(** The payload [pl] is what [Compact] wrote for the part [p] it returned
    under the caller's [options]: it opens as the row group of [p] and holds
    the stamp of [p] under [compaction_tx]. *)
Definition recorded (options : list Option) (pl : list byte) (p : Part)
    : Prop :=
  exists pf buf tx,
    OpenFile pl = Ok pf
    /\ NewSerializedBuffer pf = Ok buf
    /\ Lookup (ParquetFile buf) ParquetCompactionTXKey = Some (FormatUint tx)
    /\ 0 <= tx < 2 ^ 64
    /\ p = NewParquetPart tx buf (options ++ [WithRelease LevelDone]).

(** The level appends to its one file, opened as [h0] at position 0 and
    now holding [data], with the write offset at the end of it. *)
Definition appending (w : World) (f : FileCompaction) (h0 : VFS.File)
             (data : list byte) : Prop :=
  indexFiles f = [VFS.advanced h0 (Z.of_nat (List.length data))]
  /\ offset f = Z.of_nat (List.length data)
  /\ VFS.content (fs w) (VFS.fino h0) = data
  /\ (VFS.fino h0 < List.length (VFS.inodes (fs w)))%nat
  /\ VFS.fpos h0 = 0 /\ VFS.fclosed h0 = false.

(** A level as [recover] on an empty directory or [Reset] leaves it: one
    active file, empty, the only file of the level directory. *)
Definition fresh (w : World) (f : FileCompaction) : Prop :=
  exists h name,
    indexFiles f = [h]
    /\ VFS.fname h = (dir f, name)
    /\ Ext name = IndexFileExtension
    /\ VFS.fpos h = 0 /\ VFS.fclosed h = false /\ offset f = 0
    /\ (VFS.fino h < List.length (VFS.inodes (fs w)))%nat
    /\ VFS.content (fs w) (VFS.fino h) = []
    /\ VFS.ReadDir (fs w) (dir f) = Some [((dir f, name), VFS.fino h)]
    /\ VFS.lookup_name (fs w) (dir f, name) = Some (VFS.fino h).

(** *** The in-memory level *)

Record inMemoryLevel : Type := mkInMemoryLevel {
  mcompact : Compaction;
  mmaxSize : Z
}.

(** The compaction function run against a [bytes.Buffer]: [Write]
    appends and returns no error; a buffer that would grow beyond the
    largest [int] panics with [bytes.ErrTooLarge]. *)
Fixpoint runBuffered (prog : Writes) (b : list byte)
  : Outcome (list byte * (Z * error)) :=
  match prog with
  | Done pre err => Returned (b, (pre, err))
  | WriteThen p k =>
      if MaxInt64 <? Z.of_nat (List.length b) + Z.of_nat (List.length p)
      then Panicked "bytes.Buffer: too large"
      else runBuffered (k (Z.of_nat (List.length p)) None) (b ++ p)
  end.

(** [inMemoryLevel.Compact]. *)
Definition memCompact (l : inMemoryLevel) (toCompact : list Part)
           (options : list Option) : Outcome CompactResult :=
  if (List.length toCompact =? 0)%nat
  then Returned ([], 0, 0, errorf "no parts to compact")
  else
    match runBuffered (mcompact l toCompact []) [] with
    | Panicked m => Panicked m
    | Returned (b, (preCompactionSize, Some e)) =>
        Returned ([], 0, 0, Some e)
    | Returned (b, (preCompactionSize, None)) =>
        match ReaderFromBytes b with
        | Err e => Returned ([], 0, 0, Some e)
        | Ok buf =>
            let postCompactionSize := to_int64 (Z.of_nat (List.length b)) in
            Returned
              ([NewParquetPart (firstTX toCompact) buf options],
               preCompactionSize, postCompactionSize, None)
        end
    end.

(** [inMemoryLevel.Snapshot]: the writer is called on each part until
    it fails. *)
Fixpoint memSnapshot (snapshot : list Part) (writer : Part -> error)
  : error :=
  match snapshot with
  | [] => None
  | part :: rest =>
      match writer part with
      | Some e => Some e
      | None => memSnapshot rest writer
      end
  end.

End Levels.
End Index.

(* ================================================================== *)
(** ** Package expr: pruning of column chunks by their statistics *)
(* ================================================================== *)

Module Expr.
Import Go.

(** [parquet.Kind]. *)
Inductive Kind : Type :=
| Boolean | Int32 | Int64 | Int96 | Float | Double
| ByteArray | FixedLenByteArray.

(** [parquet.Value]: the null value, or a kind with its payload, the 64
    bits every scalar is kept in (two's complement for the integers, the
    IEEE 754 bits for the floats, 0 or 1 for a boolean) and the bytes of a
    byte array.  The null value has an all-zero payload. *)
Inductive Value : Type :=
| Null
| Val (k : Kind) (u64 : Z) (data : list byte).

Definition IsNull (v : Value) : bool :=
  match v with Null => true | Val _ _ _ => false end.
Definition u64 (v : Value) : Z :=
  match v with Null => 0 | Val _ u _ => u end.
Definition byteArray (v : Value) : list byte :=
  match v with Null => [] | Val _ _ d => d end.

Definition Int32Value (z : Z) : Value := Val Int32 (to_uint64 z) [].
Definition Int64Value (z : Z) : Value := Val Int64 (to_uint64 z) [].
Definition BooleanValue (b : bool) : Value :=
  Val Boolean (if b then 1 else 0) [].
Definition ByteArrayValue (d : list byte) : Value :=
  Val ByteArray (Z.of_nat (List.length d)) d.

Definition to_int32 (z : Z) : Z := (z + 2 ^ 31) mod 2 ^ 32 - 2 ^ 31.

(** The three-way comparison every [Type.Compare] of parquet-go ends in:
    -1, 0 or +1. *)
Definition cmpZ (a b : Z) : Z :=
  if a <? b then -1 else if b <? a then 1 else 0.

(** Order of IEEE 754 numbers on their bit patterns, [w] bits wide with an
    [m]-bit mantissa: a NaN is neither below nor above anything, the two
    zeros are equal, and otherwise the order is that of sign and
    magnitude. *)
Definition float_key (w m : Z) (bits : Z) : option Z :=
  let b := bits mod 2 ^ w in
  let magnitude := b mod 2 ^ (w - 1) in
  if 2 ^ (w - 1) - 2 ^ m <? magnitude then None
  else Some (if b <? 2 ^ (w - 1) then magnitude else - magnitude).

Definition cmpFloat (w m : Z) (a b : Z) : Z :=
  match float_key w m a, float_key w m b with
  | Some x, Some y => cmpZ x y
  | _, _ => 0
  end.

(** [bytes.Compare]. *)
Fixpoint cmpBytes (a b : list byte) : Z :=
  match a, b with
  | [], [] => 0
  | [], _ :: _ => -1
  | _ :: _, [] => 1
  | x :: a', y :: b' =>
      let c := cmpZ (Z_of_byte x) (Z_of_byte y) in
      if c =? 0 then cmpBytes a' b' else c
  end.

Definition cmpBool (a b : bool) : Z :=
  if negb a && b then -1 else if a && negb b then 1 else 0.

(** [compare]: dispatch on the kind of [v1]; each [parquet.*Type.Compare]
    reads the payload of both values.  The null value has no kind among
    the cases, and neither has Int96: the default case panics. *)
Definition compare (v1 v2 : Value) : Outcome Z :=
  match v1 with
  | Val Int32 a _ => Returned (cmpZ (to_int32 a) (to_int32 (u64 v2)))
  | Val Int64 a _ => Returned (cmpZ (to_int64 a) (to_int64 (u64 v2)))
  | Val Float a _ => Returned (cmpFloat 32 23 a (u64 v2))
  | Val Double a _ => Returned (cmpFloat 64 52 a (u64 v2))
  | Val ByteArray _ d | Val FixedLenByteArray _ d =>
      Returned (cmpBytes d (byteArray v2))
  | Val Boolean a _ =>
      Returned (cmpBool (negb (a =? 0)) (negb (u64 v2 =? 0)))
  | _ => Panicked "unsupported value comparison"
  end.

(** One page of a [parquet.ColumnIndex]. *)
Record Page : Type := mkPage {
  MinValue  : Value;
  MaxValue  : Value;
  PageNulls : Z
}.

Definition ColumnIndex : Type := list Page.

(** The loop of [Min] over the pages after the first. *)
Fixpoint minLoop (pages : list Page) (minV : Value) : Outcome Value :=
  match pages with
  | [] => Returned minV
  | p :: rest =>
      let v := MinValue p in
      if IsNull minV then minLoop rest v
      else
        match compare minV v with
        | Panicked m => Panicked m
        | Returned c => minLoop rest (if c =? 1 then v else minV)
        end
  end.

(** [Min]; [columnIndex.MinValue (0)] panics when there is no page. *)
Definition Min (columnIndex : ColumnIndex) : Outcome Value :=
  match columnIndex with
  | [] => Panicked "index out of range [0]"
  | p :: rest => minLoop rest (MinValue p)
  end.

Fixpoint maxLoop (pages : list Page) (maxValue : Value) : Outcome Value :=
  match pages with
  | [] => Returned maxValue
  | p :: rest =>
      let v := MaxValue p in
      if IsNull maxValue then maxLoop rest v
      else
        match compare maxValue v with
        | Panicked m => Panicked m
        | Returned c => maxLoop rest (if c =? -1 then v else maxValue)
        end
  end.

(** [Max]. *)
Definition Max (columnIndex : ColumnIndex) : Outcome Value :=
  match columnIndex with
  | [] => Panicked "index out of range [0]"
  | p :: rest => maxLoop rest (MaxValue p)
  end.

(** [NullCount]: the int64 sum of the pages' null counts. *)
Definition NullCount (columnIndex : ColumnIndex) : Z :=
  fold_left (fun numNulls p => to_int64 (numNulls + PageNulls p))
            columnIndex 0.

(** [parquet.ColumnChunk] as far as pruning reads it. *)
Record ColumnChunk : Type := mkColumnChunk {
  GetColumnIndex : Result ColumnIndex;
  NumValues      : Z;
  BloomFilter    : option (Value -> Result bool)
}.

(** Modelled from the spec: [logicalplan.Op] is not among the sources;
    a scalar predicate is [column <op> value] with [op] one of
    [=], [!=], [<], [<=], [>], [>=]. *)
Inductive Op : Type :=
| OpEq | OpNotEq | OpLt | OpLtEq | OpGt | OpGtEq.

Definition is_OpEq (o : Op) : bool :=
  match o with OpEq => true | _ => false end.

(** [compare (a, b)] followed by a test of its result. *)
Definition compared (a b : Value) (test : Z -> bool)
  : Outcome (bool * error) :=
  match compare a b with
  | Panicked m => Panicked m
  | Returned c => Returned (test c, None)
  end.

(** An endpoint of the chunk against the right-hand value, for the four
    order operators: a null endpoint keeps the chunk. *)
Definition endpoint (e : Outcome Value) (right : Value) (test : Z -> bool)
  : Outcome (bool * error) :=
  match e with
  | Panicked m => Panicked m
  | Returned v =>
      if IsNull v then Returned (true, None) else compared v right test
  end.

(** [BinaryScalarOperation]. *)
Definition BinaryScalarOperation (left : ColumnChunk) (right : Value)
           (operator : Op) : Outcome (bool * error) :=
  match GetColumnIndex left with
  | Err e => Returned (true, Some e)
  | Ok leftColumnIndex =>
      let numNulls := NullCount leftColumnIndex in
      let fullOfNulls := numNulls =? NumValues left in
      if is_OpEq operator then
        if IsNull right then Returned (numNulls >? 0, None)
        else if fullOfNulls then Returned (false, None)
        else
          match BloomFilter left with
          | None =>
              match Max leftColumnIndex with
              | Panicked m => Panicked m
              | Returned maxV =>
                  match compare right maxV with
                  | Panicked m => Panicked m
                  | Returned c1 =>
                      if c1 <=? 0 then
                        match Min leftColumnIndex with
                        | Panicked m => Panicked m
                        | Returned minV =>
                            compared right minV (fun c2 => c2 >=? 0)
                        end
                      else Returned (false, None)
                  end
              end
          | Some check =>
              match check right with
              | Err e => Returned (true, Some e)
              | Ok ok => if negb ok then Returned (false, None)
                         else Returned (true, None)
              end
          end
      else if IsNull right then Returned (true, None)
      else if numNulls =? NumValues left then Returned (false, None)
      else
        match operator with
        | OpLtEq =>
            endpoint (Min leftColumnIndex) right (fun c => c <=? 0)
        | OpLt =>
            endpoint (Min leftColumnIndex) right (fun c => c <? 0)
        | OpGt =>
            endpoint (Max leftColumnIndex) right (fun c => c >? 0)
        | OpGtEq =>
            endpoint (Max leftColumnIndex) right (fun c => c >=? 0)
        | _ => Returned (true, None)
        end
  end.

(** The aggregate of the design document, after its words: the minimum
    (resp. maximum) of all non-null per-page minima (resp. maxima), the order
    being that of [compare]; the null value when every page endpoint is null. *)
Definition nonNull (vs : list Value) : list Value :=
  filter (fun v => negb (IsNull v)) vs.

Definition lower (a : Outcome Value) (b : Value) : Outcome Value :=
  match a with
  | Panicked m => Panicked m
  | Returned x =>
      match compare x b with
      | Panicked m => Panicked m
      | Returned c => Returned (if c =? 1 then b else x)
      end
  end.

Definition higher (a : Outcome Value) (b : Value) : Outcome Value :=
  match a with
  | Panicked m => Panicked m
  | Returned x =>
      match compare x b with
      | Panicked m => Panicked m
      | Returned c => Returned (if c =? -1 then b else x)
      end
  end.

Definition aggregateMin (columnIndex : ColumnIndex) : Outcome Value :=
  match nonNull (map MinValue columnIndex) with
  | [] => Returned Null
  | v :: vs => fold_left lower vs (Returned v)
  end.

Definition aggregateMax (columnIndex : ColumnIndex) : Outcome Value :=
  match nonNull (map MaxValue columnIndex) with
  | [] => Returned Null
  | v :: vs => fold_left higher vs (Returned v)
  end.

(** No null value comes after a non-null one. *)
Fixpoint nulls_first (vs : list Value) : bool :=
  match vs with
  | [] => true
  | Null :: rest => nulls_first rest
  | Val _ _ _ :: rest => forallb (fun v => negb (IsNull v)) rest
  end.

(** A chunk of three pages of an int64 column, nine values of which the
    three of the second page are null, without a bloom filter. *)
Definition chunk_5_null_7 : ColumnChunk :=
  mkColumnChunk
    (Ok [mkPage (Int64Value 5) (Int64Value 6) 0;
         mkPage Null Null 3;
         mkPage (Int64Value 7) (Int64Value 7) 0])
    9 None.

(** What [Eval] reads of a [Particulate]: the names of the fields of its
    schema and its column chunks, in the same order. *)
Record Particulate : Type := mkParticulate {
  SchemaFields : list string;
  ColumnChunks : list ColumnChunk
}.

(** The loop of [findColumnIndex]; [i] is the index of the head of
    [fields]. *)
Fixpoint findFrom (fields : list string) (columnName : string) (i : Z) : Z :=
  match fields with
  | [] => -1
  | field :: rest =>
      if String.eqb field columnName then i
      else findFrom rest columnName (i + 1)
  end.

(** [findColumnIndex]. *)
Definition findColumnIndex (s : list string) (columnName : string) : Z :=
  findFrom s columnName 0.

Record ColumnRef : Type := mkColumnRef { ColumnName : string }.

(** [ColumnRef.Column]: the chunk when the column is in the schema (the
    index expression panics when there are fewer chunks than fields), and
    whether it is; the error is always nil. *)
Definition Column (c : ColumnRef) (p : Particulate)
  : Outcome (option ColumnChunk * bool * error) :=
  let columnIndex := findColumnIndex (SchemaFields p) (ColumnName c) in
  if negb (columnIndex =? -1) then
    match nth_error (ColumnChunks p) (Z.to_nat columnIndex) with
    | Some columnChunk => Returned (Some columnChunk, true, None)
    | None => Panicked "index out of range"
    end
  else Returned (None, false, None).

Record BinaryScalarExpr : Type := mkBinaryScalarExpr {
  Left  : ColumnRef;
  Operator : Op;
  Right : Value
}.

(** [right.Kind () == parquet.ByteArray ||
    right.Kind () == parquet.FixedLenByteArray]. *)
Definition isByteArrayKind (v : Value) : bool :=
  match v with
  | Val ByteArray _ _ | Val FixedLenByteArray _ _ => true
  | _ => false
  end.

(** [right.String () == ""] for a value of a byte array kind. *)
Definition isEmptyString (v : Value) : bool :=
  match byteArray v with [] => true | _ :: _ => false end.

(** [BinaryScalarExpr.Eval]. *)
Definition Eval (e : BinaryScalarExpr) (p : Particulate)
           (ignoreMissingCol : bool) : Outcome (bool * error) :=
  match Column (Left e) p with
  | Panicked m => Panicked m
  | Returned (_, _, Some err) => Returned (false, Some err)
  | Returned (leftData, exists_, None) =>
      if negb exists_ && ignoreMissingCol then Returned (true, None)
      else if negb exists_ then
        match
          (if IsNull (Right e) then
             match Operator e with
             | OpEq => Some true
             | OpNotEq => Some false
             | _ => None
             end
           else None)
        with
        | Some b => Returned (b, None)
        | None =>
            if isByteArrayKind (Right e)
               && ((is_OpEq (Operator e) && isEmptyString (Right e))
                   || (match Operator e with OpNotEq => true | _ => false end
                       && negb (isEmptyString (Right e))))
            then Returned (true, None)
            else Returned (false, None)
        end
      else
        match leftData with
        | Some chunk => BinaryScalarOperation chunk (Right e) (Operator e)
        | None => Panicked "nil column chunk"
        end
  end.

(** The number of null values the pages of a column index report, as an
    integer without bound. *)
Definition totalNulls (columnIndex : ColumnIndex) : Z :=
  fold_right Z.add 0 (map PageNulls columnIndex).

(** A particulate of two columns, [a] and [b], and a predicate on [b]. *)
Definition two_columns : Particulate :=
  mkParticulate ["a"; "b"]
    [mkColumnChunk (Ok [mkPage (Int64Value 1) (Int64Value 2) 0]) 4 None;
     chunk_5_null_7].

Definition chunk_without_null_pages : ColumnChunk :=
  mkColumnChunk
    (Ok [mkPage (Int64Value 5) (Int64Value 6) 1;
         mkPage (Int64Value 7) (Int64Value 9) 0])
    8 None.

(** The int64 a value holds, as [parquet.Int64Type.Compare] reads it. *)
Definition asInt64 (v : Value) : Z := to_int64 (u64 v).

Definition isInt64 (v : Value) : bool :=
  match v with Val Int64 _ _ => true | _ => false end.

(** A page of an int64 column that has values: both endpoints are there. *)
Definition int64Page (p : Page) : bool :=
  isInt64 (MinValue p) && isInt64 (MaxValue p).

(** Whether the int64 [v] satisfies [v <operator> r]. *)
Definition satisfies (operator : Op) (v r : Z) : Prop :=
  match operator with
  | OpEq => v = r
  | OpNotEq => v <> r
  | OpLt => v < r
  | OpLtEq => v <= r
  | OpGt => v > r
  | OpGtEq => v >= r
  end.

End Expr.

(* ================================================================== *)
(** ** A small codec to run the level on *)
(* ================================================================== *)

(** A codec instance for the examples: a serialized row group is the byte
    [P], a flag that says whether one key/value pair follows, the pair
    (each string preceded by its length), and the rows. *)
Module Toy.
Import Go Parquet Parts.

Record RowGroup : Type := mkRowGroup {
  meta : list (string * string);
  rows : list byte
}.

Definition put_string (s : string) : list byte :=
  byte_of_Z (Z.of_nat (String.length s)) :: list_byte_of_string s.

Definition get_string (bs : list byte) : option (string * list byte) :=
  match bs with
  | [] => None
  | n :: rest =>
      let k := Z.to_nat (Z_of_byte n) in
      if (List.length rest <? k)%nat then None
      else Some (string_of_list_byte (firstn k rest), skipn k rest)
  end.

Definition encode (options : list WriterOption) (body : list byte)
  : list byte :=
  match options with
  | KeyValueMetadata k v :: _ =>
      x50 :: x01 :: put_string k ++ put_string v ++ body
  | [] => x50 :: x00 :: body
  end.

Definition decode (bs : list byte) : Result RowGroup :=
  match bs with
  | x50 :: x00 :: body => Ok (mkRowGroup [] body)
  | x50 :: x01 :: rest =>
      match get_string rest with
      | None => Err "toy: truncated key"
      | Some (k, rest') =>
          match get_string rest' with
          | None => Err "toy: truncated value"
          | Some (v, body) => Ok (mkRowGroup [(k, v)] body)
          end
      end
  | _ => Err "toy: invalid magic"
  end.

Definition lookup (rg : RowGroup) (key : string) : option string :=
  match find (fun kv => String.eqb (fst kv) key) (meta rg) with
  | Some kv => Some (snd kv)
  | None => None
  end.

Definition codec : Codec := {|
    File := RowGroup;
    SerializedBuffer := RowGroup;
    OpenFile := decode;
    Lookup := lookup;
    NewSerializedBuffer := fun rg => Ok rg;
    ParquetFile := fun rg => rg;
    ReaderFromBytes := decode
  |}.

Definition part (tx : Z) (body : list byte) : @Part codec :=
  @mkPart codec tx (mkRowGroup [] body) [].

Definition body_of (ps : list (@Part codec)) : list byte :=
  List.concat (map (fun p => rows (@Buf codec p)) ps).

(** Merges the rows of the inputs: the header in one [Write], the rows in
    a second one; a failed [Write] ends the compaction with its error. *)
Definition compaction : @Index.Compaction codec :=
  fun ps options =>
    let body := body_of ps in
    Index.WriteThen (encode options [])
      (fun _ err =>
         match err with
         | Some _ => Index.Done 0 err
         | None =>
             Index.WriteThen body
               (fun _ err' => Index.Done (Z.of_nat (List.length body)) err')
         end).

(** The same, for a writer of files that carry no key/value metadata. *)
Definition compaction_without_metadata : @Index.Compaction codec :=
  fun ps _ => compaction ps [].

Definition world0 : Index.World := Index.mkWorld VFS.empty [] [].

Definition closed_level (c : @Index.Compaction codec)
  : @Index.FileCompaction codec :=
  Index.mkFileCompaction "lvl" c 100 [] 0 0.

(** Opening the level in directory [lvl] and recovering it, as the layer
    above does when it starts. *)
Definition open_level (c : @Index.Compaction codec) (w : Index.World)
  : Index.World * @Index.FileCompaction codec :=
  match Index.NewFileCompaction w "lvl" 100 c with
  | (w1, Ok f) =>
      match Index.recover w1 f [] with
      | (w2, f2, _) => (w2, f2)
      end
  | (w1, Err _) => (w1, closed_level c)
  end.

(** The parts [recover] returns after the level has been opened again. *)
Definition reopen (c : @Index.Compaction codec) (w : Index.World)
  : Index.Recovered :=
  match Index.NewFileCompaction w "lvl" 100 c with
  | (w1, Ok f) => snd (Index.recover w1 f [])
  | (w1, Err e) => Index.RecoverReturned [] (Some e)
  end.

(** One compaction on a level, keeping the state only. *)
Definition after_compact (s : Index.World * @Index.FileCompaction codec)
           (inputs : list (@Part codec))
  : Index.World * @Index.FileCompaction codec :=
  fst (Index.Compact (fst s) (snd s) inputs []).

(** The level right after [NewFileCompaction], before any [recover]. *)
Definition just_opened : Index.World * @Index.FileCompaction codec :=
  match Index.NewFileCompaction world0 "lvl" 100 compaction with
  | (w1, Ok f) => (w1, f)
  | (w1, Err _) => (w1, closed_level compaction)
  end.

Definition in_memory : @Index.inMemoryLevel codec :=
  Index.mkInMemoryLevel compaction 100.

(** A level that has just been opened on an empty file system, and one
    compaction of a part of three rows with transaction 7 on it. *)
Definition level0 : Index.World * @Index.FileCompaction codec :=
  open_level compaction world0.

Definition inputs7 : list (@Part codec) := [part 7 [x01; x02; x03]].

(** A level of two files, the first with one record and the second, the
    active one, empty; and a snapshot directory that already holds a file
    named like the first. *)
Definition record7 : list byte :=
  encode [KeyValueMetadata "compaction_tx" "7"] [x01; x02; x03] ++ PutUint64 21.

Definition snapshotted_world : Index.World :=
  Index.mkWorld
    (VFS.mkFS ["snap"; "lvl"]
       [(("lvl", "00000000000000000000.idx"), 0%nat);
        (("lvl", "00000000000000000001.idx"), 1%nat);
        (("snap", "00000000000000000000.idx"), 0%nat)]
       [record7; []])
    [] [].

Definition rotated_level : @Index.FileCompaction codec :=
  Index.mkFileCompaction "lvl" compaction 100
    [VFS.mkFile ("lvl", "00000000000000000000.idx") 0 29 true false;
     VFS.mkFile ("lvl", "00000000000000000001.idx") 1 0 true false]
    0 0.

(** A level whose compaction function writes no key/value metadata, after
    one compaction. *)
Definition bare_level : Index.World * @Index.FileCompaction codec :=
  after_compact (open_level compaction_without_metadata world0) inputs7.

(** A level directory of three files: a record with transaction 7, three
    bytes that are no record, a record with transaction 9. *)
Definition record9 : list byte :=
  encode [KeyValueMetadata "compaction_tx" "9"] [x04] ++ PutUint64 19.

Definition damaged_world : Index.World :=
  Index.mkWorld
    (VFS.mkFS ["lvl"]
       [(("lvl", "00000000000000000000.idx"), 0%nat);
        (("lvl", "00000000000000000001.idx"), 1%nat);
        (("lvl", "00000000000000000002.idx"), 2%nat)]
       [record7; [x00; x00; x00]; record9])
    [] [].

(** The same directory without the damaged file. *)
Definition healthy_world : Index.World :=
  Index.mkWorld
    (VFS.mkFS ["lvl"]
       [(("lvl", "00000000000000000000.idx"), 0%nat);
        (("lvl", "00000000000000000002.idx"), 1%nat)]
       [record7; record9])
    [] [].

(** The walk over the damaged directory after its first file. *)
Definition after_first_file
    : Index.World * @Index.FileCompaction codec * @Index.Walk codec :=
  Index.walk [(("lvl", "00000000000000000000.idx"), 0%nat)] damaged_world
    (closed_level compaction) [] [].

Definition part7 : @Part codec :=
  @NewParquetPart codec 7 (mkRowGroup [("compaction_tx", "7")] [x01; x02; x03])
    [WithRelease LevelDone].

Definition part9 : @Part codec :=
  @NewParquetPart codec 9 (mkRowGroup [("compaction_tx", "9")] [x04])
    [WithRelease LevelDone].

(** Two compactions on the fresh level, the second with a stamp above the
    largest int64. *)
Definition inputs_big : list (@Part codec) := [part (2 ^ 63) [x04]].

Definition two_compactions
    : option (Index.World * @Index.FileCompaction codec * list (@Part codec)) :=
  Index.compactAll (fst level0) (snd level0) [inputs7; inputs_big] [].

Definition compacted_big
    : Index.World * @Index.FileCompaction codec
      * Outcome (@Index.CompactResult codec) :=
  Index.Compact (fst level0) (snd level0) inputs_big [].

Definition compacted7
  : Index.World * @Index.FileCompaction codec
    * Outcome (@Index.CompactResult codec) :=
  Index.Compact (fst level0) (snd level0) inputs7 [].

End Toy.

(* ================================================================== *)
(** * Properties *)
(* ================================================================== *)

(** ** Integers, bytes and decimal strings *)

Module GoFacts.
Import Go.

Lemma to_int64_small (z : Z) :
  MinInt64 <= z <= MaxInt64 -> to_int64 z = z.
Proof.
  unfold to_int64, MinInt64, MaxInt64. intros H.
  rewrite Z.mod_small; lia.
Qed.

Lemma to_uint64_small (z : Z) : 0 <= z < 2 ^ 64 -> to_uint64 z = z.
Proof. unfold to_uint64. intros H. apply Z.mod_small. exact H. Qed.

Lemma to_int64_range (z : Z) : MinInt64 <= to_int64 z <= MaxInt64.
Proof.
  unfold to_int64, MinInt64, MaxInt64.
  pose proof (Z.mod_pos_bound (z + 2 ^ 63) (2 ^ 64) ltac:(lia)). lia.
Qed.

Lemma Z_of_byte_range (b : byte) : 0 <= Z_of_byte b < 256.
Proof.
  unfold Z_of_byte. pose proof (Byte.to_N_bounded b). lia.
Qed.

Lemma Z_of_byte_of_Z (z : Z) : Z_of_byte (byte_of_Z z) = z mod 256.
Proof.
  unfold Z_of_byte, byte_of_Z.
  pose proof (Z.mod_pos_bound z 256 ltac:(lia)) as Hb.
  destruct (Byte.of_N (Z.to_N (z mod 256))) as [b|] eqn:E.
  - apply Byte.to_of_N in E. rewrite E. lia.
  - apply Byte.of_N_None_iff in E. lia.
Qed.

Lemma lor_shiftl_8 (a b : Z) :
  0 <= a < 256 -> Z.lor a (Z.shiftl b 8) = a + 256 * b.
Proof.
  intros Ha.
  assert (Hland : Z.land a (Z.shiftl b 8) = 0).
  { apply Z.bits_inj'. intros n Hn. rewrite Z.land_spec, Z.bits_0.
    destruct (Z.ltb_spec n 8).
    - rewrite Z.shiftl_spec_low by lia. apply andb_false_r.
    - rewrite (Z.bits_above_log2 a n); [reflexivity | lia | ].
      destruct (Z.eq_dec a 0) as [->|Hne]; [simpl; lia|].
      apply Z.lt_le_trans with 8; [|lia].
      apply Z.log2_lt_pow2; lia. }
  rewrite <- Z.lxor_lor by exact Hland.
  rewrite <- Z.add_nocarry_lxor by exact Hland.
  rewrite Z.shiftl_mul_pow2 by lia. change (2 ^ 8) with 256. lia.
Qed.

Lemma le_value_put (v : Z) (k s : nat) :
  le_value (map (fun i => byte_of_Z (Z.shiftr v (8 * Z.of_nat i))) (seq s k))
  = Z.shiftr v (8 * Z.of_nat s) mod 2 ^ (8 * Z.of_nat k).
Proof.
  revert s. induction k as [|k IH]; intros s.
  - simpl. rewrite Z.mod_1_r. reflexivity.
  - cbn [seq map le_value]. rewrite IH.
    rewrite lor_shiftl_8 by (rewrite Z_of_byte_of_Z; apply Z.mod_pos_bound; lia).
    rewrite Z_of_byte_of_Z.
    replace (2 ^ (8 * Z.of_nat (S k))) with (256 * 2 ^ (8 * Z.of_nat k)).
    2:{ replace (8 * Z.of_nat (S k)) with (8 + 8 * Z.of_nat k) by lia.
        rewrite Z.pow_add_r by lia. reflexivity. }
    rewrite Z.rem_mul_r by lia.
    f_equal. f_equal. f_equal.
    replace (8 * Z.of_nat (S s)) with (8 * Z.of_nat s + 8) by lia.
    rewrite <- Z.shiftr_shiftr by lia.
    rewrite (Z.shiftr_div_pow2 _ 8) by lia. reflexivity.
Qed.

Lemma PutUint64_length (v : Z) : List.length (PutUint64 v) = 8%nat.
Proof. reflexivity. Qed.

(** Decoding the trailer gives back the integer that was encoded. *)
Lemma Uint64_PutUint64 (v : Z) : Uint64 (PutUint64 v) = to_uint64 v.
Proof.
  unfold Uint64, PutUint64.
  rewrite firstn_all2 by (rewrite length_map, length_seq; lia).
  rewrite le_value_put. rewrite Z.shiftr_0_r. reflexivity.
Qed.

Lemma digit_cases (d : Z) :
  0 <= d <= 9 ->
  d = 0 \/ d = 1 \/ d = 2 \/ d = 3 \/ d = 4 \/ d = 5 \/ d = 6 \/ d = 7
  \/ d = 8 \/ d = 9.
Proof. lia. Qed.

Ltac each_digit H :=
  destruct (digit_cases _ H) as
    [->|[->|[->|[->|[->|[->|[->|[->|[->| ->]]]]]]]]].

Lemma digit_val_char (d : Z) :
  0 <= d <= 9 -> digit_val (digit_char d) = Some d.
Proof. intros H. each_digit H; reflexivity. Qed.

Lemma digit_char_no_sign (d : Z) :
  0 <= d <= 9 ->
  Ascii.eqb (digit_char d) "-" = false /\ Ascii.eqb (digit_char d) "+" = false.
Proof. intros H. each_digit H; split; reflexivity. Qed.

Lemma mod10_digit (n : Z) : 0 <= n mod 10 <= 9.
Proof. pose proof (Z.mod_pos_bound n 10 ltac:(lia)). lia. Qed.

(** Reading back the digits that were written in front of [acc]. *)
Lemma parse_digits_acc (fuel : nat) :
  forall n acc, 0 <= n < 10 ^ Z.of_nat fuel ->
  parse_digits (digits_acc fuel n acc) 0 = parse_digits acc n.
Proof.
  induction fuel as [|fuel IH]; intros n acc Hn.
  - simpl in Hn. assert (n = 0) by lia. subst. reflexivity.
  - cbn [digits_acc].
    assert (Hstep : forall a, parse_digits (String (digit_char (n mod 10)) acc) a
                       = parse_digits acc (a * 10 + n mod 10)).
    { intros a. cbn [parse_digits].
      rewrite digit_val_char by apply mod10_digit. reflexivity. }
    destruct (Z.eqb_spec (n / 10) 0) as [E|E].
    + rewrite Hstep. f_equal.
      pose proof (Z.div_mod n 10 ltac:(lia)). lia.
    + rewrite IH.
      * rewrite Hstep. f_equal.
        pose proof (Z.div_mod n 10 ltac:(lia)). lia.
      * split; [apply Z.div_pos; lia|].
        apply Z.div_lt_upper_bound; [lia|].
        replace (Z.of_nat (S fuel)) with (1 + Z.of_nat fuel) in Hn by lia.
        rewrite Z.pow_add_r in Hn by lia. lia.
Qed.

Lemma digits_acc_head (fuel : nat) (n : Z) (acc : string) :
  exists d rest, 0 <= d <= 9 /\
    digits_acc (S fuel) n acc = String (digit_char d) rest.
Proof.
  revert n acc. induction fuel as [|fuel IH]; intros n acc.
  - cbn [digits_acc]. exists (n mod 10), acc.
    split; [apply mod10_digit|]. destruct (n / 10 =? 0); reflexivity.
  - change (digits_acc (S (S fuel)) n acc)
      with (let acc' := String (digit_char (n mod 10)) acc in
            if n / 10 =? 0 then acc' else digits_acc (S fuel) (n / 10) acc').
    cbv zeta. destruct (n / 10 =? 0).
    + exists (n mod 10), acc. split; [apply mod10_digit | reflexivity].
    + apply IH.
Qed.

(** What [strconv.Atoi] makes of the decimal rendering of a uint64: the
    number itself up to the largest int64, an error above it. *)
Lemma Atoi_FormatUint (t : Z) :
  0 <= t < 2 ^ 64 ->
  Atoi (FormatUint t) = if t <=? MaxInt64 then Some t else None.
Proof.
  intros Ht. unfold FormatUint.
  destruct (digits_acc_head 19 t "") as (d & rest & Hd & E).
  pose proof (parse_digits_acc 20 t "" ltac:(simpl; lia)) as Hp.
  rewrite E in *. unfold Atoi.
  destruct (digit_char_no_sign d Hd) as [-> ->]. cbn [orb].
  rewrite Hp. cbn [parse_digits].
  unfold MinInt64, MaxInt64.
  destruct (Z.leb_spec t (2 ^ 63 - 1)).
  - replace (- 2 ^ 63 <=? t) with true by (symmetry; apply Z.leb_le; lia).
    reflexivity.
  - replace (- 2 ^ 63 <=? t) with true by (symmetry; apply Z.leb_le; lia).
    reflexivity.
Qed.

Lemma digits_acc_bound (fuel : nat) :
  forall n acc,
    (String.length (digits_acc fuel n acc) <= fuel + String.length acc)%nat.
Proof.
  induction fuel as [|fuel IH]; intros n acc; [simpl; lia|].
  cbn [digits_acc]. destruct (n / 10 =? 0).
  - cbn [String.length]. lia.
  - eapply Nat.le_trans; [apply IH|]. cbn [String.length]. lia.
Qed.

Lemma digits_acc_length_20 (n : Z) :
  (String.length (FormatUint n) <= 20)%nat.
Proof.
  unfold FormatUint. pose proof (digits_acc_bound 20 n ""). cbn in *. lia.
Qed.

End GoFacts.

(** ** The file system *)

Module VFSFacts.
Import Go VFS.

Lemma update_nth_length {A} (n : nat) (x : A) (l : list A) :
  List.length (update_nth n x l) = List.length l.
Proof.
  revert n. induction l as [|a l IH]; intros [|n]; simpl; auto.
Qed.

Lemma nth_update_nth_eq {A} (n : nat) (x d : A) (l : list A) :
  (n < List.length l)%nat -> nth n (update_nth n x l) d = x.
Proof.
  revert n. induction l as [|a l IH]; intros [|n] H; simpl in *;
    try lia; auto. apply IH. lia.
Qed.

Lemma nth_update_nth_neq {A} (n m : nat) (x d : A) (l : list A) :
  n <> m -> nth m (update_nth n x l) d = nth m l d.
Proof.
  revert n m. induction l as [|a l IH]; intros [|n] [|m] H; simpl;
    try congruence; auto.
Qed.

Lemma write_at_inside (data : list byte) (pos : nat) (p : list byte) :
  (pos <= List.length data)%nat ->
  write_at data pos p
  = firstn pos data ++ p ++ skipn (pos + List.length p) data.
Proof.
  intros H. unfold write_at.
  replace (pos - List.length data)%nat with 0%nat by lia. reflexivity.
Qed.

Lemma write_at_nil (data : list byte) (pos : nat) :
  (pos <= List.length data)%nat -> write_at data pos [] = data.
Proof.
  intros H. rewrite write_at_inside by exact H. simpl.
  rewrite Nat.add_0_r. apply firstn_skipn.
Qed.

Lemma write_at_end (data p : list byte) :
  write_at data (List.length data) p = data ++ p.
Proof.
  rewrite write_at_inside by lia.
  rewrite firstn_all, skipn_all2 by lia. rewrite app_nil_r. reflexivity.
Qed.

Lemma write_at_length (data : list byte) (pos : nat) (p : list byte) :
  (pos <= List.length data)%nat ->
  List.length (write_at data pos p)
  = Nat.max (List.length data) (pos + List.length p).
Proof.
  intros H. rewrite write_at_inside by exact H.
  rewrite !length_app, length_firstn, length_skipn. lia.
Qed.

(** Two writes one after the other are one write of both. *)
Lemma write_at_app (data : list byte) (pos : nat) (p q : list byte) :
  (pos <= List.length data)%nat ->
  write_at (write_at data pos p) (pos + List.length p) q
  = write_at data pos (p ++ q).
Proof.
  intros H.
  rewrite (write_at_inside (write_at data pos p)).
  2:{ rewrite write_at_length by exact H. lia. }
  rewrite !write_at_inside by exact H.
  assert (Hf : List.length (firstn pos data) = pos)
    by (rewrite length_firstn; lia).
  rewrite firstn_app, Hf.
  rewrite (firstn_all2 (n := (pos + List.length p)%nat) (firstn pos data))
    by lia.
  replace (pos + List.length p - pos)%nat with (List.length p) by lia.
  rewrite firstn_app, firstn_all, Nat.sub_diag, firstn_O, app_nil_r.
  rewrite <- !app_assoc. f_equal. f_equal. f_equal.
  rewrite skipn_app, Hf.
  rewrite (skipn_all2 (n := (pos + List.length p + List.length q)%nat)
             (firstn pos data)) by lia.
  rewrite skipn_app.
  rewrite (skipn_all2 (n := (pos + List.length p + List.length q - pos)%nat) p)
    by lia.
  simpl. rewrite skipn_skipn, length_app. f_equal. lia.
Qed.

(** What was written is what is read back at the same place. *)
Lemma slice_write_at (data : list byte) (pos : nat) (p : list byte) :
  (pos <= List.length data)%nat ->
  slice (write_at data pos p) pos (List.length p) = p.
Proof.
  intros H. unfold slice. rewrite write_at_inside by exact H.
  rewrite skipn_app.
  rewrite skipn_all2 by (rewrite length_firstn; lia).
  rewrite length_firstn. replace (pos - Nat.min pos (List.length data))%nat
    with 0%nat by lia.
  simpl. rewrite firstn_app, firstn_all, Nat.sub_diag, firstn_O.
  apply app_nil_r.
Qed.

Lemma slice_app_l (data : list byte) (pos : nat) (p q : list byte) :
  slice data pos (List.length p + List.length q) = p ++ q ->
  slice data pos (List.length p) = p.
Proof.
  unfold slice. intros H.
  assert (E : firstn (List.length p)
                (firstn (List.length p + List.length q) (skipn pos data))
              = firstn (List.length p) (p ++ q)) by (rewrite H; reflexivity).
  rewrite firstn_firstn in E.
  replace (Nat.min (List.length p) (List.length p + List.length q))
    with (List.length p) in E by lia.
  rewrite E, firstn_app, firstn_all, Nat.sub_diag, firstn_O.
  apply app_nil_r.
Qed.

Lemma slice_app_r (data : list byte) (pos : nat) (p q : list byte) :
  slice data pos (List.length p + List.length q) = p ++ q ->
  slice data (pos + List.length p) (List.length q) = q.
Proof.
  unfold slice. intros H.
  assert (E : skipn (List.length p)
                (firstn (List.length p + List.length q) (skipn pos data))
              = skipn (List.length p) (p ++ q)) by (rewrite H; reflexivity).
  rewrite skipn_firstn_comm in E.
  replace (List.length p + List.length q - List.length p)%nat
    with (List.length q) in E by lia.
  rewrite skipn_skipn in E.
  rewrite (Nat.add_comm pos), E, skipn_app, skipn_all, Nat.sub_diag.
  reflexivity.
Qed.

End VFSFacts.

(** ** Writing a record *)

Module CompactFacts.
Import Go VFS Parquet Parts Index GoFacts VFSFacts.

Lemma advanced_0 (h : VFS.File) : advanced h 0 = h.
Proof. destruct h. unfold advanced. simpl. f_equal. lia. Qed.

Lemma advanced_advanced (h : VFS.File) (a b : Z) :
  advanced (advanced h a) b = advanced h (a + b).
Proof. unfold advanced. simpl. f_equal. lia. Qed.

Lemma content_stored_eq (fs : FS) (ino : nat) (data : list byte) :
  (ino < List.length (inodes fs))%nat -> content (stored fs ino data) ino = data.
Proof. intros H. unfold content, stored. simpl. apply nth_update_nth_eq, H. Qed.

Lemma content_stored_neq (fs : FS) (ino i : nat) (data : list byte) :
  ino <> i -> content (stored fs ino data) i = content fs i.
Proof. intros H. unfold content, stored. simpl. apply nth_update_nth_neq, H. Qed.

Lemma stored_stored (fs : FS) (ino : nat) (d1 d2 : list byte) :
  stored (stored fs ino d1) ino d2 = stored fs ino d2.
Proof.
  unfold stored. simpl. f_equal.
  generalize (inodes fs). clear. intros l. revert ino.
  induction l as [|a l IH]; intros [|n]; simpl; auto. f_equal. apply IH.
Qed.

Lemma stored_same (fs : FS) (ino : nat) :
  stored fs ino (content fs ino) = fs.
Proof.
  destruct fs as [d n i]. unfold stored, content. simpl. f_equal.
  revert ino. induction i as [|a l IH]; intros [|k]; simpl; auto.
  f_equal. apply IH.
Qed.

(** [Write] either stores all of [p] at the position of the handle and
    advances it, or changes nothing. *)
Lemma Write_cases (fs : FS) (h : VFS.File) (p : list byte) :
  (fclosed h = false /\ fwritable h = true
   /\ fpos h + Z.of_nat (List.length p) <= MaxInt64
   /\ Write fs h p
      = (stored fs (fino h)
           (write_at (content fs (fino h)) (Z.to_nat (fpos h)) p),
         advanced h (Z.of_nat (List.length p)),
         Z.of_nat (List.length p), None))
  \/ (exists e, Write fs h p = (fs, h, 0, Some e)).
Proof.
  unfold Write.
  destruct (fclosed h) eqn:Ec; [right; eexists; reflexivity|].
  destruct (fwritable h) eqn:Ew; [|right; eexists; reflexivity]. simpl.
  destruct (Z.ltb_spec MaxInt64 (fpos h + Z.of_nat (List.length p)));
    [right; eexists; reflexivity|].
  left. repeat split; try assumption.
  unfold stored, advanced. rewrite Ec, Ew. reflexivity.
Qed.

Lemma valid_handle_stored (fs : FS) (h : VFS.File) (p : list byte) :
  valid_handle fs h ->
  valid_handle
    (stored fs (fino h)
       (write_at (content fs (fino h)) (Z.to_nat (fpos h)) p))
    (advanced h (Z.of_nat (List.length p))).
Proof.
  intros [Hi Hp]. unfold valid_handle. simpl.
  rewrite update_nth_length. split; [exact Hi|].
  change (nth (fino h) (update_nth (fino h)
            (write_at (content fs (fino h)) (Z.to_nat (fpos h)) p)
            (inodes fs)) [])
    with (content (stored fs (fino h)
            (write_at (content fs (fino h)) (Z.to_nat (fpos h)) p)) (fino h)).
  rewrite content_stored_eq by exact Hi.
  rewrite write_at_length by lia. lia.
Qed.

Section WithCodec.
Context {codec : Codec}.

(** What running a compaction function against the accounting writer
    does: the payload lands at the position of the handle, the handle
    advances by its length, and so does the count. *)
Lemma runAccounted_spec (prog : Writes) :
  forall fs h n,
    valid_handle fs h -> 0 <= n <= fpos h -> n <= MaxInt64 ->
    let pl := payloadOf prog fs h in
    let k := Z.of_nat (List.length pl) in
    n + k <= MaxInt64
    /\ exists r,
        runAccounted prog fs h n
        = (stored fs (fino h)
             (write_at (content fs (fino h)) (Z.to_nat (fpos h)) pl),
           advanced h k, n + k, r).
Proof.
  induction prog as [pre err | p k IH]; intros fs h n Hv Hn Hmax.
  - cbn [payloadOf runAccounted List.length Z.of_nat].
    split; [lia|]. exists (pre, err).
    rewrite write_at_nil by (destruct Hv; lia).
    rewrite stored_same, advanced_0, Z.add_0_r. reflexivity.
  - cbn [payloadOf runAccounted].
    destruct (Write_cases fs h p) as [(Hc & Hw & Hb & E) | [e E]];
      rewrite E.
    + rewrite Nat2Z.id, firstn_all.
      set (len := Z.of_nat (List.length p)) in *.
      assert (Hlen : 0 <= len) by (unfold len; lia).
      rewrite (to_int64_small len) by (unfold MinInt64, MaxInt64 in *; lia).
      rewrite (to_int64_small (n + len))
        by (unfold MinInt64, MaxInt64 in *; lia).
      pose proof (valid_handle_stored fs h p Hv) as Hv'.
      fold len in Hv'.
      specialize (IH len None _ _ (n + len) Hv').
      cbn [advanced fpos fino] in IH.
      destruct IH as [Hk [r Hr]]; [lia | lia |].
      rewrite length_app.
      split; [lia|]. exists r. rewrite Hr.
      rewrite content_stored_eq by (destruct Hv; assumption).
      rewrite stored_stored, advanced_advanced.
      replace (Z.to_nat (fpos h + len))
        with (Z.to_nat (fpos h) + List.length p)%nat by (unfold len; lia).
      rewrite write_at_app by (destruct Hv; lia).
      rewrite Nat2Z.inj_add. fold len. rewrite Z.add_assoc. reflexivity.
    + change (Z.to_nat 0) with 0%nat. rewrite firstn_O. cbn [app].
      change (to_int64 0) with 0. rewrite Z.add_0_r.
      rewrite (to_int64_small n) by (unfold MinInt64, MaxInt64 in *; lia).
      apply IH; assumption.
Qed.

Lemma file_set_files (f : FileCompaction) (l : list VFS.File) (h : VFS.File)
      (off : Z) :
  file (set_files f (l ++ [h]) off) = Returned h.
Proof.
  unfold file, set_files. cbn [indexFiles].
  destruct (l ++ [h]) as [|a t] eqn:E.
  - destruct l; discriminate.
  - f_equal. rewrite <- (last_last l h a), E.
    destruct t; [reflexivity|]. reflexivity.
Qed.

Lemma file_ends_with (f : FileCompaction) (l : list VFS.File) (h : VFS.File) :
  indexFiles f = l ++ [h] -> file f = Returned h.
Proof.
  intros E. rewrite <- (file_set_files f l h (offset f)).
  unfold file, set_files. cbn [indexFiles]. rewrite E. reflexivity.
Qed.

Lemma file_Returned (f : FileCompaction) (h : VFS.File) :
  file f = Returned h ->
  indexFiles f = removelast (indexFiles f) ++ [h].
Proof.
  unfold file. destruct (indexFiles f) as [|a t] eqn:E; [discriminate|].
  intros H. injection H as <-.
  rewrite (app_removelast_last a) at 1 by discriminate.
  f_equal. f_equal. destruct t; reflexivity.
Qed.

(** Everything a successful [Compact] has done. *)
Lemma Compact_success (w w' : World) (f f' : FileCompaction)
      (toCompact ps : list Part) (options : list Option) (pre post : Z)
      (h : VFS.File) :
  file f = Returned h ->
  valid_handle (fs w) h ->
  Compact w f toCompact options = (w', f', Returned (ps, pre, post, None)) ->
  let pl :=
    payloadOf
      (compact f toCompact
         [KeyValueMetadata ParquetCompactionTXKey
            (FormatUint (firstTX toCompact))])
      (fs w) h in
  let h' := advanced h (post + 8) in
  toCompact <> []
  /\ post = Z.of_nat (List.length pl)
  /\ fpos h + post + 8 <= MaxInt64
  /\ w' = mkWorld
            (stored (fs w) (fino h)
               (write_at (content (fs w) (fino h)) (Z.to_nat (fpos h))
                  (pl ++ PutUint64 post)))
            (logged w) (released w)
  /\ f' = mkFileCompaction (dir f) (compact f) (maxSize f)
            (removelast (indexFiles f) ++ [h'])
            (to_int64 (offset f + (post + 8))) (parts f + 1)
  /\ exists bytes pf buf,
      ReadSection (fs w') h' (offset f) post = Ok bytes
      /\ OpenFile bytes = Ok pf
      /\ NewSerializedBuffer pf = Ok buf
      /\ ps = [NewParquetPart (firstTX toCompact) buf
                 (options ++ [WithRelease LevelDone])].
Proof.
  intros Hfile Hv. unfold Compact.
  destruct toCompact as [|p0 rest] eqn:Etc; [discriminate|].
  rewrite <- Etc. replace (List.length toCompact =? 0)%nat with false
    by (subst; reflexivity).
  rewrite Hfile.
  set (prog := compact f toCompact _).
  assert (Hpos : 0 <= 0 <= fpos h) by (destruct Hv; lia).
  destruct (runAccounted_spec prog (fs w) h 0 Hv Hpos
              ltac:(unfold MaxInt64; lia)) as [Hk [[pre0 err0] Hr]].
  rewrite Hr. cbv zeta. set (pl := payloadOf prog (fs w) h) in *.
  set (n := Z.of_nat (List.length pl)) in *.
  rewrite Z.add_0_l in *.
  destruct err0 as [e|]; [discriminate|].
  cbn [set_fs fs].
  pose proof (valid_handle_stored (fs w) h pl Hv) as Hv1. fold n in Hv1.
  set (fs1 := stored (fs w) (fino h) _) in *.
  destruct (Write_cases fs1 (advanced h n) (PutUint64 (to_uint64 n)))
    as [(Hc & Hw & Hb & E) | [e E]]; rewrite E; [|discriminate].
  rewrite PutUint64_length in *. change (Z.of_nat 8) with 8 in *.
  change (negb (8 =? 8)) with false. cbv iota.
  cbn [advanced fpos fino fclosed] in Hb, Hc.
  assert (Hn0 : 0 <= n) by (unfold n; lia).
  rewrite (to_uint64_small n) by (unfold MaxInt64 in *; lia).
  unfold VFS.Sync. cbn [advanced fclosed]. rewrite Hc.
  assert (Eoff : to_int64 (offset f + to_int64 (n + 8))
                 = to_int64 (offset f + (n + 8))).
  { rewrite (to_int64_small (n + 8))
      by (unfold MinInt64, MaxInt64 in *; lia). reflexivity. }
  replace (offset (set_file (set_file f (advanced h n))
                          (advanced (advanced h n) 8)))
    with (offset f) by reflexivity.
  replace (offset (set_file f (advanced h n))) with (offset f)
    by reflexivity.
  rewrite Eoff.
  match goal with
  | |- context [stored fs1 ?i ?d] => set (fs2 := stored fs1 i d)
  end.
  match goal with
  | |- context [ReadSection fs2 ?hh _ _] => set (h2 := hh)
  end.
  destruct (ReadSection fs2 h2 (offset f) n) as [bytes|] eqn:Ers;
    [|discriminate].
  destruct (OpenFile bytes) as [pf|] eqn:Eof; [|discriminate].
  destruct (NewSerializedBuffer pf) as [buf|] eqn:Enb; [|discriminate].
  intros H. injection H as <- <- <- <- <-.
  assert (Eh2 : h2 = advanced h (n + 8)).
  { unfold h2, advanced. cbn [fname fino fpos fwritable fclosed].
    rewrite Hc. f_equal. lia. }
  assert (Efs2 :
            fs2 = stored (fs w) (fino h)
                    (write_at (content (fs w) (fino h)) (Z.to_nat (fpos h))
                       (pl ++ PutUint64 n))).
  { unfold fs2. cbn [advanced fino fpos].
    unfold fs1 at 1. rewrite stored_stored. f_equal.
    unfold fs1. rewrite content_stored_eq by (destruct Hv; assumption).
    replace (Z.to_nat (fpos h + n))
      with (Z.to_nat (fpos h) + List.length pl)%nat by (unfold n; lia).
    apply write_at_app. destruct Hv. lia. }
  split; [rewrite Etc; discriminate|]. split; [reflexivity|]. split; [lia|].
  split; [rewrite <- Efs2; reflexivity|].
  split.
  { unfold set_parts, set_offset, set_file, set_files.
    cbn [dir Index.compact maxSize indexFiles offset parts].
    rewrite removelast_last, <- Eh2. reflexivity. }
  exists bytes, pf, buf. cbn [fs]. rewrite <- Eh2.
  repeat split; assumption.
Qed.

(** A new active file makes the level [tracked]. *)
Lemma createIndexFile_tracked (w w' : World) (f f' : FileCompaction) (id : Z)
      (h : VFS.File) :
  well_formed (fs w) ->
  createIndexFile w f id = (w', f', Ok h) ->
  tracked w' f'.
Proof.
  intros Hwf. unfold createIndexFile, VFS.OpenFile.
  destruct (negb _); [discriminate|].
  destruct (dir_exists _ _); [discriminate|].
  destruct (lookup_name (fs w) _) as [ino|] eqn:El;
    intros H; injection H as <- <- <-.
  - exists (mkFile (Join (dir f) (Format020d id ++ IndexFileExtension)) ino 0
              true false).
    split; [apply file_set_files|]. cbn [set_fs fs set_files offset].
    unfold valid_handle. cbn [fino fpos]. repeat split; try lia.
    apply (Hwf _ _ El).
  - eexists. split; [apply file_set_files|]. cbn [set_fs fs set_files offset].
    unfold valid_handle, content. cbn [fino fpos inodes].
    rewrite length_app. cbn [List.length].
    rewrite app_nth2, Nat.sub_diag by lia. cbn. repeat split; lia.
Qed.

(** [Compact] keeps a level [tracked], however it returns. *)
Lemma Compact_keeps_tracked (w w' : World) (f f' : FileCompaction)
      (toCompact : list Part) (options : list Option)
      (r : Outcome CompactResult) :
  tracked w f ->
  Compact w f toCompact options = (w', f', r) ->
  tracked w' f'.
Proof.
  intros (h & Hf & Hv & Hoff) H.
  assert (Hkeep : tracked w f) by (exists h; auto).
  unfold Compact in H.
  destruct (List.length toCompact =? 0)%nat;
    [injection H as <- <- _; exact Hkeep|].
  rewrite Hf in H.
  set (prog := compact f toCompact _) in H.
  assert (Hpos : 0 <= 0 <= fpos h) by (destruct Hv; lia).
  destruct (runAccounted_spec prog (fs w) h 0 Hv Hpos
              ltac:(unfold MaxInt64; lia)) as [Hk [[pre0 err0] Hr]].
  rewrite Hr in H. cbv zeta in H.
  set (pl := payloadOf prog (fs w) h) in *.
  set (n := Z.of_nat (List.length pl)) in *.
  rewrite Z.add_0_l in *.
  assert (Hn0 : 0 <= n) by (unfold n; lia).
  pose proof (valid_handle_stored (fs w) h pl Hv) as Hv1. fold n in Hv1.
  set (fs1 := stored (fs w) (fino h) _) in *.
  assert (T1 : forall off, 0 <= off <= fpos h + n ->
                           tracked (set_fs w fs1)
                             (set_offset (set_file f (advanced h n)) off)).
  { intros off Ho. exists (advanced h n).
    split; [apply file_set_files|]. split; [exact Hv1|].
    cbn [set_offset set_files offset advanced fpos]. exact Ho. }
  destruct err0 as [e|].
  { injection H as <- <- _.
    replace (set_file f (advanced h n))
      with (set_offset (set_file f (advanced h n)) (offset f)) by reflexivity.
    apply T1. lia. }
  destruct (Write_cases fs1 (advanced h n) (PutUint64 (to_uint64 n)))
    as [(Hc & Hw & Hb & E) | [e E]]; rewrite E in H.
  2:{ cbn [negb Z.eqb] in H. injection H as <- <- _.
      replace (set_fs (set_fs w fs1) fs1) with (set_fs w fs1) by reflexivity.
      replace (set_file (set_file f (advanced h n)) (advanced h n))
        with (set_offset (set_file f (advanced h n)) (offset f)).
      - apply T1. lia.
      - unfold set_offset, set_file, set_files.
        cbn [indexFiles offset dir compact maxSize parts].
        rewrite removelast_last. reflexivity. }
  rewrite PutUint64_length in *. change (Z.of_nat 8) with 8 in *.
  change (negb (8 =? 8)) with false in H. cbv iota in H.
  cbn [advanced fpos fino fclosed] in Hb, Hc.
  pose proof (valid_handle_stored fs1 (advanced h n) (PutUint64 (to_uint64 n))
                Hv1) as Hv2.
  rewrite PutUint64_length in Hv2. change (Z.of_nat 8) with 8 in Hv2.
  set (fs2 := stored fs1 _ _) in *.
  assert (T2 : forall k,
             tracked (set_fs (set_fs w fs1) fs2)
               (set_parts
                  (set_offset
                     (set_file (set_file f (advanced h n))
                        (advanced (advanced h n) 8))
                     (to_int64 (offset f + to_int64 (n + 8)))) k)).
  { intros k. exists (advanced (advanced h n) 8).
    split.
    { apply (file_ends_with _ (removelast (indexFiles f))).
      unfold set_parts, set_offset, set_file, set_files.
      cbn [indexFiles]. rewrite removelast_last. reflexivity. }
    split; [exact Hv2|].
    cbn [set_parts set_offset set_file set_files offset advanced fpos].
    rewrite (to_int64_small (n + 8)) by (unfold MinInt64, MaxInt64 in *; lia).
    rewrite to_int64_small by (unfold MinInt64, MaxInt64 in *; lia). lia. }
  assert (T2' : tracked (set_fs (set_fs w fs1) fs2)
                  (set_offset
                     (set_file (set_file f (advanced h n))
                        (advanced (advanced h n) 8))
                     (to_int64 (offset f + to_int64 (n + 8))))).
  { exact (T2 (parts f)). }
  replace (offset (set_file (set_file f (advanced h n))
                          (advanced (advanced h n) 8)))
    with (offset f) in H by reflexivity.
  destruct (VFS.Sync _); [injection H as <- <- _; exact T2'|].
  destruct (ReadSection _ _ _ _); [|injection H as <- <- _; exact T2'].
  destruct (OpenFile _); [|injection H as <- <- _; exact T2'].
  destruct (NewSerializedBuffer _); injection H as <- <- _;
    [apply T2 | exact T2'].
Qed.

End WithCodec.
End CompactFacts.

(** ** The claims about [Compact] *)

Module CompactClaims.
Import Go VFS Parquet Parts Index GoFacts VFSFacts CompactFacts.

Section WithCodec.
Context {codec : Codec}.

Lemma runBuffered_bound (prog : Writes) :
  forall b b' r,
    Z.of_nat (List.length b) <= MaxInt64 ->
    runBuffered prog b = Returned (b', r) ->
    Z.of_nat (List.length b') <= MaxInt64.
Proof.
  induction prog as [pre err | p k IH]; intros b b' r Hb H.
  - cbn [runBuffered] in H. injection H as <- _. exact Hb.
  - cbn [runBuffered] in H.
    destruct (Z.ltb_spec MaxInt64
                (Z.of_nat (List.length b) + Z.of_nat (List.length p)));
      [discriminate|].
    apply IH in H; [exact H|]. rewrite length_app. lia.
Qed.

(** C5. A call of [Compact] with an empty input slice returns a non-nil
    error, no parts and zero byte counts, on the file level and on the
    in-memory level, and leaves the level and the file system as they
    were. *)
Theorem C5_compact_empty_input :
  (forall (w : World) (f : FileCompaction) (options : list Option),
      Compact w f [] options
      = (w, f, Returned ([], 0, 0, Some "no parts to compact")))
  /\ (forall (l : inMemoryLevel) (options : list Option),
         memCompact l [] options
         = Returned ([], 0, 0, Some "no parts to compact")).
Proof. split; intros; reflexivity. Qed.

(** C6. A successful [Compact] with non-empty inputs returns exactly
    one part, stamped with the transaction of the first input, and its
    post-compaction size is the number of bytes of the payload: on the
    file level the bytes that reached the active file before the
    8-byte trailer, on the in-memory level the bytes in the buffer the
    part is read from. *)
Theorem C6_compact_result :
  (forall (w w' : World) (f f' : FileCompaction) (toCompact ps : list Part)
          (options : list Option) (pre post : Z) (h : VFS.File),
      file f = Returned h ->
      valid_handle (fs w) h ->
      Compact w f toCompact options
      = (w', f', Returned (ps, pre, post, None)) ->
      exists input rest p payload,
        toCompact = input :: rest /\ ps = [p] /\ TX p = TX input
        /\ payload
           = payloadOf
               (compact f toCompact
                  [KeyValueMetadata ParquetCompactionTXKey
                     (FormatUint (firstTX toCompact))])
               (fs w) h
        /\ post = Z.of_nat (List.length payload)
        /\ content (fs w') (fino h)
           = write_at (content (fs w) (fino h)) (Z.to_nat (fpos h))
               (payload ++ PutUint64 post))
  /\ (forall (l : inMemoryLevel) (toCompact ps : list Part)
             (options : list Option) (pre post : Z),
         memCompact l toCompact options = Returned (ps, pre, post, None) ->
         exists input rest p b,
           toCompact = input :: rest /\ ps = [p] /\ TX p = TX input
           /\ runBuffered (mcompact l toCompact []) []
              = Returned (b, (pre, None))
           /\ ReaderFromBytes b = Ok (Buf p)
           /\ post = Z.of_nat (List.length b)).
Proof.
  split.
  - intros w w' f f' toCompact ps options pre post h Hf Hv H.
    destruct (Compact_success _ _ _ _ _ _ _ _ _ _ Hf Hv H)
      as (Hne & Hpost & _ & Hw & _ & bytes & pf & buf & _ & _ & _ & Hps).
    destruct toCompact as [|input rest]; [congruence|].
    exists input, rest, (NewParquetPart (TX input) buf
                           (options ++ [WithRelease LevelDone])).
    eexists. repeat split; try eassumption; try reflexivity.
    rewrite Hw. cbn [fs]. apply content_stored_eq. apply Hv.
  - intros l toCompact ps options pre post H. unfold memCompact in H.
    destruct toCompact as [|input rest]; [discriminate|].
    cbn [List.length Nat.eqb] in H.
    destruct (runBuffered (mcompact l (input :: rest) []) [])
      as [[b [pre0 [e|]]]|m] eqn:E; try discriminate.
    destruct (ReaderFromBytes b) as [buf|] eqn:Er; [|discriminate].
    injection H as <- <- <-.
    exists input, rest, (NewParquetPart (TX input) buf options), b.
    repeat split; try assumption.
    apply to_int64_small.
    assert (H0 : Z.of_nat (@List.length byte []) <= MaxInt64)
      by (simpl; unfold MaxInt64; lia).
    pose proof (runBuffered_bound _ _ _ _ H0 E).
    unfold MinInt64. lia.
Qed.

Lemma PutUint64_nth (v : Z) (i : nat) :
  (i < 8)%nat ->
  nth i (PutUint64 v) x00 = byte_of_Z (v / 256 ^ Z.of_nat i).
Proof.
  intros Hi. unfold PutUint64.
  rewrite (nth_indep _ x00 (byte_of_Z (Z.shiftr v (8 * Z.of_nat 0))))
    by (rewrite length_map, length_seq; exact Hi).
  rewrite (map_nth (fun i => byte_of_Z (Z.shiftr v (8 * Z.of_nat i)))).
  rewrite seq_nth by exact Hi. cbn [Nat.add].
  rewrite Z.shiftr_div_pow2 by lia.
  rewrite Z.pow_mul_r by lia. reflexivity.
Qed.

(** C4. After a successful [Compact] that wrote a payload of [post]
    bytes at the position of the active file, the 8 bytes that follow
    the payload are the little-endian bytes of [post] (byte [i] is
    [post / 256^i mod 256], and they decode to [post]), and the write
    offset of the level has advanced by [post + 8]. *)
Theorem C4_trailer_identity
        (w w' : World) (f f' : FileCompaction) (toCompact ps : list Part)
        (options : list Option) (pre post : Z) :
  tracked w f ->
  Compact w f toCompact options = (w', f', Returned (ps, pre, post, None)) ->
  exists h payload trailer,
    file f = Returned h
    /\ post = Z.of_nat (List.length payload)
    /\ slice (content (fs w') (fino h)) (Z.to_nat (fpos h))
         (Z.to_nat post) = payload
    /\ slice (content (fs w') (fino h)) (Z.to_nat (fpos h + post)) 8
       = trailer
    /\ trailer = PutUint64 post
    /\ (forall i, (i < 8)%nat ->
                  nth i trailer x00 = byte_of_Z (post / 256 ^ Z.of_nat i))
    /\ Uint64 trailer = post
    /\ offset f' = offset f + post + 8.
Proof.
  intros (h & Hf & Hv & Hoff) H.
  destruct (Compact_success _ _ _ _ _ _ _ _ _ _ Hf Hv H)
    as (_ & Hpost & Hmax & Hw & Hf' & _).
  set (payload := payloadOf _ (fs w) h) in *.
  exists h, payload, (PutUint64 post).
  assert (Hc : content (fs w') (fino h)
               = write_at (content (fs w) (fino h)) (Z.to_nat (fpos h))
                   (payload ++ PutUint64 post)).
  { rewrite Hw. cbn [fs]. apply content_stored_eq. apply Hv. }
  assert (Hs : slice (content (fs w') (fino h)) (Z.to_nat (fpos h))
                 (List.length payload + List.length (PutUint64 post))
               = payload ++ PutUint64 post).
  { rewrite Hc, <- length_app. apply slice_write_at. destruct Hv. lia. }
  split; [exact Hf|]. split; [exact Hpost|].
  split.
  { rewrite Hpost, Nat2Z.id. eapply slice_app_l. exact Hs. }
  split.
  { replace (Z.to_nat (fpos h + post))
      with (Z.to_nat (fpos h) + List.length payload)%nat
      by (destruct Hv; lia).
    change 8%nat with (List.length (PutUint64 post)).
    eapply slice_app_r. exact Hs. }
  split; [reflexivity|].
  split; [intros i Hi; apply PutUint64_nth, Hi|].
  split.
  { rewrite Uint64_PutUint64. apply to_uint64_small.
    unfold MaxInt64 in Hmax. destruct Hv. lia. }
  rewrite Hf'. cbn [offset]. rewrite Z.add_assoc. apply to_int64_small.
  unfold MinInt64, MaxInt64 in *. lia.
Qed.

End WithCodec.

Lemma level0_tracked : @tracked Toy.codec (fst Toy.level0) (snd Toy.level0).
Proof.
  eexists. split; [reflexivity|]. split.
  - split; [vm_compute; lia | vm_compute; split; discriminate].
  - vm_compute. split; discriminate.
Defined.

Lemma compacted7_eq :
  Toy.compacted7
  = (fst (fst Toy.compacted7), snd (fst Toy.compacted7),
     Returned ([@NewParquetPart Toy.codec 7
                  (Toy.mkRowGroup [("compaction_tx", "7")] [x01; x02; x03])
                  [WithRelease LevelDone]], 3, 21, None)).
Proof. vm_compute. reflexivity. Defined.

Lemma C4_trailer_identity_witness :
  exists h payload trailer,
    @file Toy.codec (snd Toy.level0) = Returned h
    /\ 21 = Z.of_nat (List.length payload)
    /\ slice (content (fs (fst (fst Toy.compacted7))) (fino h))
         (Z.to_nat (fpos h)) (Z.to_nat 21) = payload
    /\ slice (content (fs (fst (fst Toy.compacted7))) (fino h))
         (Z.to_nat (fpos h + 21)) 8 = trailer
    /\ trailer = PutUint64 21
    /\ (forall i, (i < 8)%nat ->
                  nth i trailer x00 = byte_of_Z (21 / 256 ^ Z.of_nat i))
    /\ Uint64 trailer = 21
    /\ offset (snd (fst Toy.compacted7)) = offset (snd Toy.level0) + 21 + 8.
Proof.
  exact (C4_trailer_identity (codec := Toy.codec) _ _ _ _ _ _ _ _ _
           level0_tracked compacted7_eq).
Defined.

Lemma C6_compact_result_witness :
  (exists input rest p payload,
      Toy.inputs7 = input :: rest
      /\ [@NewParquetPart Toy.codec 7
            (Toy.mkRowGroup [("compaction_tx", "7")] [x01; x02; x03])
            [WithRelease LevelDone]] = [p]
      /\ TX p = TX input
      /\ payload
         = payloadOf
             (compact (snd Toy.level0) Toy.inputs7
                [KeyValueMetadata ParquetCompactionTXKey
                   (FormatUint (firstTX Toy.inputs7))])
             (fs (fst Toy.level0))
             (mkFile ("lvl", "00000000000000000000.idx") 0 0 true false)
      /\ 21 = Z.of_nat (List.length payload)
      /\ content (fs (fst (fst Toy.compacted7))) 0
         = write_at (content (fs (fst Toy.level0)) 0) (Z.to_nat 0)
             (payload ++ PutUint64 21))
  /\ (exists input rest p b,
         Toy.inputs7 = input :: rest
         /\ [@NewParquetPart Toy.codec 7
               (Toy.mkRowGroup [] [x01; x02; x03]) []] = [p]
         /\ TX p = TX input
         /\ runBuffered (mcompact Toy.in_memory Toy.inputs7 []) []
            = Returned (b, (3, None))
         /\ @ReaderFromBytes Toy.codec b = Ok (Buf p)
         /\ 5 = Z.of_nat (List.length b)).
Proof.
  split.
  - apply (proj1 (C6_compact_result (codec := Toy.codec))
             (fst Toy.level0) (fst (fst Toy.compacted7))
             (snd Toy.level0) (snd (fst Toy.compacted7))
             Toy.inputs7 _ [] 3 21
             (mkFile ("lvl", "00000000000000000000.idx") 0 0 true false)).
    + reflexivity.
    + split; [vm_compute; lia | vm_compute; split; discriminate].
    + exact compacted7_eq.
  - apply (proj2 (C6_compact_result (codec := Toy.codec))
             Toy.in_memory Toy.inputs7 _ [] 3 5).
    vm_compute. reflexivity.
Defined.

End CompactClaims.

(** ** Pruning *)

Module PruningClaims.
Import Go Expr.

Lemma minLoop_nonnull (pages : list Page) :
  forall v,
    IsNull v = false ->
    forallb (fun x => negb (IsNull x)) (map MinValue pages) = true ->
    minLoop pages v = fold_left lower (map MinValue pages) (Returned v).
Proof.
  induction pages as [|p rest IH]; intros v Hv Hall; [reflexivity|].
  cbn [map forallb] in Hall. apply andb_true_iff in Hall as [Hp Hrest].
  cbn [minLoop map fold_left lower]. rewrite Hv.
  destruct (compare v (MinValue p)) as [c|m] eqn:E.
  - apply IH; [|exact Hrest].
    destruct (c =? 1); [|exact Hv].
    destruct (IsNull (MinValue p)); [discriminate|reflexivity].
  - clear. induction (map MinValue rest) as [|x l IHl]; [reflexivity|].
    exact IHl.
Qed.

Lemma maxLoop_nonnull (pages : list Page) :
  forall v,
    IsNull v = false ->
    forallb (fun x => negb (IsNull x)) (map MaxValue pages) = true ->
    maxLoop pages v = fold_left higher (map MaxValue pages) (Returned v).
Proof.
  induction pages as [|p rest IH]; intros v Hv Hall; [reflexivity|].
  cbn [map forallb] in Hall. apply andb_true_iff in Hall as [Hp Hrest].
  cbn [maxLoop map fold_left higher]. rewrite Hv.
  destruct (compare v (MaxValue p)) as [c|m] eqn:E.
  - apply IH; [|exact Hrest].
    destruct (c =? -1); [|exact Hv].
    destruct (IsNull (MaxValue p)); [discriminate|reflexivity].
  - clear. induction (map MaxValue rest) as [|x l IHl]; [reflexivity|].
    exact IHl.
Qed.

Lemma nonNull_all (vs : list Value) :
  forallb (fun x => negb (IsNull x)) vs = true -> nonNull vs = vs.
Proof.
  induction vs as [|v vs IH]; [reflexivity|].
  cbn [forallb nonNull filter]. intros H.
  apply andb_true_iff in H as [Hv Hvs]. rewrite Hv. f_equal. apply IH, Hvs.
Qed.

Lemma nonNull_cons (v : Value) (vs : list Value) :
  nonNull (v :: vs) = if negb (IsNull v) then v :: nonNull vs else nonNull vs.
Proof. reflexivity. Qed.

(** Where no null page minimum follows a non-null one, [Min] is the
    aggregate of the design document. *)
Lemma Min_nulls_first (idx : ColumnIndex) :
  idx <> [] ->
  nulls_first (map MinValue idx) = true ->
  Min idx = aggregateMin idx.
Proof.
  intros Hne H. destruct idx as [|p rest]; [congruence|]. clear Hne.
  unfold Min. revert p H. induction rest as [|q rest IH]; intros p H.
  - unfold aggregateMin. cbn. destruct (MinValue p); reflexivity.
  - cbn [map nulls_first] in H. unfold aggregateMin.
    change (map MinValue (p :: q :: rest))
      with (MinValue p :: map MinValue (q :: rest)).
    rewrite nonNull_cons.
    destruct (MinValue p) as [|k u d] eqn:Ep.
    + cbn [IsNull negb minLoop]. exact (IH q H).
    + cbn [IsNull negb].
      rewrite nonNull_all by exact H.
      apply minLoop_nonnull; [reflexivity | exact H].
Qed.

Lemma Max_nulls_first (idx : ColumnIndex) :
  idx <> [] ->
  nulls_first (map MaxValue idx) = true ->
  Max idx = aggregateMax idx.
Proof.
  intros Hne H. destruct idx as [|p rest]; [congruence|]. clear Hne.
  unfold Max. revert p H. induction rest as [|q rest IH]; intros p H.
  - unfold aggregateMax. cbn. destruct (MaxValue p); reflexivity.
  - cbn [map nulls_first] in H. unfold aggregateMax.
    change (map MaxValue (p :: q :: rest))
      with (MaxValue p :: map MaxValue (q :: rest)).
    rewrite nonNull_cons.
    destruct (MaxValue p) as [|k u d] eqn:Ep.
    + cbn [IsNull negb maxLoop]. exact (IH q H).
    + cbn [IsNull negb].
      rewrite nonNull_all by exact H.
      apply maxLoop_nonnull; [reflexivity | exact H].
Qed.

(** C8 holds on the chunks where a page without values is never preceded
    by one with values: there [=] keeps the chunk exactly when the value
    lies between the aggregate minimum and the aggregate maximum. *)
Lemma equality_by_bounds_nulls_first
      (left : ColumnChunk) (right : Value) (idx : ColumnIndex) (lo hi : Value)
      (cmax cmin : Z) :
  GetColumnIndex left = Ok idx -> idx <> [] ->
  IsNull right = false ->
  NullCount idx <> NumValues left ->
  BloomFilter left = None ->
  nulls_first (map MinValue idx) = true ->
  nulls_first (map MaxValue idx) = true ->
  aggregateMin idx = Returned lo -> aggregateMax idx = Returned hi ->
  compare right hi = Returned cmax -> compare right lo = Returned cmin ->
  BinaryScalarOperation left right OpEq
  = Returned ((cmax <=? 0) && (cmin >=? 0), None).
Proof.
  intros Hidx Hne Hr Hn Hb Hmin Hmax Hlo Hhi Hcmax Hcmin.
  unfold BinaryScalarOperation. rewrite Hidx. cbn [is_OpEq]. rewrite Hr.
  destruct (Z.eqb_spec (NullCount idx) (NumValues left)); [contradiction|].
  rewrite Hb, (Max_nulls_first idx Hne Hmax), Hhi, Hcmax.
  destruct (cmax <=? 0); [|reflexivity].
  rewrite (Min_nulls_first idx Hne Hmin), Hlo. unfold compared.
  rewrite Hcmin. reflexivity.
Qed.

Example equality_by_bounds_two_pages :
  BinaryScalarOperation
    (mkColumnChunk
       (Ok [mkPage Null Null 2; mkPage (Int64Value 5) (Int64Value 6) 0;
            mkPage (Int64Value 7) (Int64Value 9) 1])
       7 None)
    (Int64Value 8) OpEq
  = Returned (true, None).
Proof.
  apply (equality_by_bounds_nulls_first _ _
           [mkPage Null Null 2; mkPage (Int64Value 5) (Int64Value 6) 0;
            mkPage (Int64Value 7) (Int64Value 9) 1]
           (Int64Value 5) (Int64Value 9) (-1) 1);
    try reflexivity; discriminate.
Qed.

(** C8, where the code departs from it.  The chunk has the page minima 5,
    null, 7 and the page maxima 6, null, 7, so its aggregate minimum is 5
    and its aggregate maximum 7, and the value 6 lies between them (it may
    even be in the first page); but [Min] returns 7, the null minimum of
    the second page having replaced the 5, and [=] discards the chunk. *)
Theorem C8_equality_discards_value_within_bounds :
  BinaryScalarOperation chunk_5_null_7 (Int64Value 6) OpEq
  = Returned (false, None)
  /\ IsNull (Int64Value 6) = false
  /\ NullCount [mkPage (Int64Value 5) (Int64Value 6) 0; mkPage Null Null 3;
                mkPage (Int64Value 7) (Int64Value 7) 0]
     <> NumValues chunk_5_null_7
  /\ BloomFilter chunk_5_null_7 = None
  /\ aggregateMin [mkPage (Int64Value 5) (Int64Value 6) 0; mkPage Null Null 3;
                   mkPage (Int64Value 7) (Int64Value 7) 0]
     = Returned (Int64Value 5)
  /\ aggregateMax [mkPage (Int64Value 5) (Int64Value 6) 0; mkPage Null Null 3;
                   mkPage (Int64Value 7) (Int64Value 7) 0]
     = Returned (Int64Value 7)
  /\ compare (Int64Value 6) (Int64Value 5) = Returned 1
  /\ compare (Int64Value 6) (Int64Value 7) = Returned (-1)
  /\ Min [mkPage (Int64Value 5) (Int64Value 6) 0; mkPage Null Null 3;
          mkPage (Int64Value 7) (Int64Value 7) 0]
     = Returned (Int64Value 7).
Proof.
  repeat split; try reflexivity. vm_compute. discriminate.
Qed.

(** C10. With the operator [!=] and a right-hand value that is not null,
    [BinaryScalarOperation] never panics and answers [false] exactly when
    the column index is there and its null count equals the number of
    values of the chunk; otherwise it answers [true], whatever the minima,
    the maxima and the bloom filter are. *)
Theorem C10_not_equal_discards_only_all_null
        (left : ColumnChunk) (right : Value) :
  IsNull right = false ->
  exists b e,
    BinaryScalarOperation left right OpNotEq = Returned (b, e)
    /\ (b = false <->
        exists idx, GetColumnIndex left = Ok idx
                    /\ NullCount idx = NumValues left)
    /\ (b = true <->
        forall idx, GetColumnIndex left = Ok idx ->
                    NullCount idx <> NumValues left).
Proof.
  intros Hr. unfold BinaryScalarOperation.
  destruct (GetColumnIndex left) as [idx|e] eqn:Hidx.
  - cbn [is_OpEq]. rewrite Hr.
    destruct (Z.eqb_spec (NullCount idx) (NumValues left)) as [E|E].
    + exists false, None. split; [reflexivity|]. split.
      * split; [intros _; exists idx; auto | reflexivity].
      * split; [discriminate|]. intros H. exfalso. apply (H idx eq_refl E).
    + exists true, None. split; [reflexivity|]. split.
      * split; [discriminate|]. intros (idx' & H1 & H2).
        injection H1 as <-. contradiction.
      * split; [|reflexivity]. intros _ idx' H1. injection H1 as <-. exact E.
  - exists true, (Some e). split; [reflexivity|]. split.
    + split; [discriminate|]. intros (idx & H1 & _). discriminate.
    + split; [|reflexivity]. intros _ idx H1. discriminate.
Qed.

Lemma C10_not_equal_discards_only_all_null_witness :
  exists b e,
    BinaryScalarOperation chunk_5_null_7 (Int64Value 6) OpNotEq
    = Returned (b, e)
    /\ (b = false <->
        exists idx, GetColumnIndex chunk_5_null_7 = Ok idx
                    /\ NullCount idx = NumValues chunk_5_null_7)
    /\ (b = true <->
        forall idx, GetColumnIndex chunk_5_null_7 = Ok idx ->
                    NullCount idx <> NumValues chunk_5_null_7).
Proof.
  exact (C10_not_equal_discards_only_all_null chunk_5_null_7 (Int64Value 6)
           eq_refl).
Defined.

End PruningClaims.

(** ** Opening a level and taking a snapshot *)

Module LevelClaims.
Import Go VFS Parquet Parts Index GoFacts VFSFacts CompactFacts.

Section WithCodec.
Context {codec : Codec}.

Lemma MkdirAll_ok (fs0 fs1 : FS) (d : string) :
  MkdirAll fs0 d = (fs1, None) ->
  dir_exists fs1 d = true /\ names fs1 = names fs0 /\ inodes fs1 = inodes fs0.
Proof.
  unfold MkdirAll. destruct (dir_exists fs0 d) eqn:E.
  - intros H. injection H as <-. auto.
  - destruct (String.eqb d ""); [discriminate|].
    destruct (existsb _ (names fs0)); [discriminate|].
    intros H. injection H as <-. repeat split.
    unfold dir_exists. cbn [dirs existsb]. rewrite String.eqb_refl. reflexivity.
Qed.

(** C3, as the code has it.  A successful [NewFileCompaction] leaves the
    level directory in place and nothing else: no index file is created and
    the file list is empty, so a [Compact] with a non-empty input that comes
    before any [recover] or [Reset] panics.  The initial active file, with
    id 0 and open for writing, is created by [recover] when the directory
    holds no file. *)
Theorem C3_open_creates_the_directory_only
        (w w' : World) (d : string) (size : Z) (c : Compaction)
        (f : FileCompaction) :
  NewFileCompaction w d size c = (w', Ok f) ->
  dir_exists (fs w') d = true
  /\ names (fs w') = names (fs w) /\ inodes (fs w') = inodes (fs w)
  /\ indexFiles f = [] /\ offset f = 0 /\ dir f = d
  /\ (forall toCompact options,
         toCompact <> [] ->
         Compact w' f toCompact options
         = (w', f, Panicked "index out of range [-1]"))
  /\ (forall options fs2 h,
         ReadDir (fs w') d = Some [] ->
         VFS.OpenFile (fs w')
           (Join d (Format020d 0 ++ IndexFileExtension)%string) = (fs2, Ok h) ->
         recover w' f options
         = (set_fs w' fs2, set_files f [h] 0, RecoverReturned [] None)
         /\ file (set_files f [h] 0) = Returned h).
Proof.
  unfold NewFileCompaction. intros H.
  destruct (MkdirAll (fs w) d) as [fs1 [e|]] eqn:E; [discriminate|].
  injection H as <- <-. cbn [set_fs fs indexFiles offset dir].
  destruct (MkdirAll_ok _ _ _ E) as (Hd & Hn & Hi).
  do 6 (split; [first [assumption | reflexivity]|]).
  split.
  - intros toCompact options Hne. unfold Compact.
    destruct toCompact; [congruence|]. reflexivity.
  - intros options fs2 h Hrd Hop. split; [|apply (file_set_files _ [])].
    unfold recover. cbn [fs set_fs dir indexFiles List.length Z.of_nat].
    rewrite Hrd. cbn [walk]. unfold createIndexFile.
    cbn [fs set_fs dir indexFiles List.length Z.of_nat].
    rewrite Hop. reflexivity.
Qed.

Lemma snapshotLoop_spec (f : FileCompaction) (dir : string)
      (files : list VFS.File) :
  forall fs0 i n,
    files <> [] -> (i + List.length files = n)%nat ->
    snapshotLoop fs0 f files i n dir
    = match linkAll fs0 (removelast files) dir with
      | (fs1, Some e) => (fs1, Some (Returned (Some e)))
      | (fs1, None) =>
          if offset f >? 0 then
            match Sync f with
            | Panicked m => (fs1, Some (Panicked m))
            | Returned (Some e) => (fs1, Some (Returned (Some e)))
            | Returned None =>
                match linkAll fs1 [last files (mkFile ("", "") 0 0 false true)]
                        dir with
                | (fs2, Some e) => (fs2, Some (Returned (Some e)))
                | (fs2, None) => (fs2, None)
                end
            end
          else (fs1, Some (Returned None))
      end.
Proof.
  induction files as [|a rest IH]; intros fs0 i n Hne Hlen; [congruence|].
  destruct rest as [|b rest'].
  - cbn [snapshotLoop removelast linkAll last].
    replace (i =? n - 1)%nat with true
      by (symmetry; apply Nat.eqb_eq; simpl in Hlen; lia).
    destruct (offset f >? 0); [|reflexivity].
    destruct (Sync f) as [[e|]|m]; try reflexivity.
    destruct (Link fs0 (Name a) (Join dir (Base (Name a)))) as [fs' [e|]];
      reflexivity.
  - change (snapshotLoop fs0 f (a :: b :: rest') i n dir)
      with (if (i =? n - 1)%nat
            then if offset f >? 0
                 then match Sync f with
                      | Panicked m => (fs0, Some (Panicked m))
                      | Returned (Some e) => (fs0, Some (Returned (Some e)))
                      | Returned None =>
                          match Link fs0 (Name a) (Join dir (Base (Name a))) with
                          | (fs', Some e) => (fs', Some (Returned (Some e)))
                          | (fs', None) =>
                              snapshotLoop fs' f (b :: rest') (S i) n dir
                          end
                      end
                 else (fs0, Some (Returned None))
            else match Link fs0 (Name a) (Join dir (Base (Name a))) with
                 | (fs', Some e) => (fs', Some (Returned (Some e)))
                 | (fs', None) => snapshotLoop fs' f (b :: rest') (S i) n dir
                 end).
    replace (i =? n - 1)%nat with false
      by (symmetry; apply Nat.eqb_neq; simpl in Hlen; lia).
    change (removelast (a :: b :: rest')) with (a :: removelast (b :: rest')).
    cbn [linkAll].
    destruct (Link fs0 (Name a) (Join dir (Base (Name a)))) as [fs' [e|]];
      [reflexivity|].
    rewrite (IH fs' (S i) n); [|discriminate | simpl in *; lia].
    reflexivity.
Qed.

(** C9, as the code has it.  On a level whose active file is empty (write
    offset 0), once the snapshot directory is there, [Snapshot] hard-links
    the files before the active one, returns nil if all those links
    succeed and the error of the first that fails otherwise, and in every
    case neither links the active file nor rotates: the level is unchanged.
    On a level whose active file is not empty, once the directory is there,
    the active file is synced and all files are linked, [Snapshot] is the
    creation of a new active file whose id is the number of files, and its
    result is the result of that creation. *)
Theorem C9_snapshot_links_then_rotates
        (w : World) (f : FileCompaction) (d : string) (fs0 : FS) :
  indexFiles f <> [] ->
  MkdirAll (fs w) d = (fs0, None) ->
  (offset f = 0 ->
   Snapshot w f d
   = (set_fs w (fst (linkAll fs0 (removelast (indexFiles f)) d)), f,
      Returned (snd (linkAll fs0 (removelast (indexFiles f)) d))))
  /\ (forall fs1,
         offset f > 0 ->
         Sync f = Returned None ->
         linkAll fs0 (indexFiles f) d = (fs1, None) ->
         Snapshot w f d
         = match createIndexFile (set_fs w fs1) f
                   (Z.of_nat (List.length (indexFiles f))) with
           | (w2, f2, Err e) => (w2, f2, Returned (Some e))
           | (w2, f2, Ok _) => (w2, f2, Returned None)
           end
           /\ forall w2 f2 h,
             createIndexFile (set_fs w fs1) f
               (Z.of_nat (List.length (indexFiles f))) = (w2, f2, Ok h) ->
             indexFiles f2 = indexFiles f ++ [h]
             /\ offset f2 = 0
             /\ file f2 = Returned h
             /\ fname h
                = Join (dir f)
                    (Format020d (Z.of_nat (List.length (indexFiles f)))
                     ++ IndexFileExtension)%string).
Proof.
  intros Hne Hmk. split.
  - intros Hoff. unfold Snapshot. rewrite Hmk.
    rewrite (snapshotLoop_spec f d (indexFiles f) fs0 0
               (List.length (indexFiles f)) Hne eq_refl).
    destruct (linkAll fs0 (removelast (indexFiles f)) d) as [fs1 [e|]];
      [reflexivity|].
    rewrite Hoff. reflexivity.
  - intros fs1 Hoff Hsync Hlink. split.
    + unfold Snapshot. rewrite Hmk.
      rewrite (snapshotLoop_spec f d (indexFiles f) fs0 0
                 (List.length (indexFiles f)) Hne eq_refl).
      rewrite (app_removelast_last (mkFile ("", "") 0 0 false true) Hne)
        in Hlink.
      revert Hlink. generalize (removelast (indexFiles f)) as init.
      generalize (last (indexFiles f) (mkFile ("", "") 0 0 false true)) as l.
      intros l init. clear Hmk. revert fs0.
      induction init as [|a init IH]; intros fs0 Hlink.
      * cbn [app] in Hlink. cbn [linkAll] in *.
        replace (offset f >? 0) with true by (symmetry; apply Z.gtb_lt; lia).
        rewrite Hsync.
        destruct (Link fs0 (Name l) (Join d (Base (Name l)))) as [fs' [e|]];
          [discriminate|].
        injection Hlink as <-. reflexivity.
      * cbn [app linkAll] in Hlink |- *.
        destruct (Link fs0 (Name a) (Join d (Base (Name a)))) as [fs' [e|]];
          [discriminate|].
        apply (IH fs'). exact Hlink.
    + intros w2 f2 h. unfold createIndexFile.
      destruct (VFS.OpenFile _ _) as [fs2 [h'|e]] eqn:E; [|discriminate].
      intros H. injection H as <- <- <-.
      cbn [set_files indexFiles offset]. repeat split.
      * apply file_set_files.
      * unfold VFS.OpenFile in E.
        destruct (negb _); [discriminate|].
        destruct (dir_exists _ _); [discriminate|].
        destruct (lookup_name _ _); injection E as _ <-; reflexivity.
Qed.

End WithCodec.

(** The claim C3 fails on the level opened on an empty file system: there
    is no file in the directory, the file list is empty, and the first
    [Compact] panics. *)
Lemma C3_counterexample :
  @NewFileCompaction Toy.codec Toy.world0 "lvl" 100 Toy.compaction
  = (fst Toy.just_opened, Ok (snd Toy.just_opened))
  /\ names (fs (fst Toy.just_opened)) = []
  /\ indexFiles (snd Toy.just_opened) = []
  /\ file (snd Toy.just_opened) = Panicked "index out of range [-1]"
  /\ snd (Compact (fst Toy.just_opened) (snd Toy.just_opened) Toy.inputs7 [])
     = Panicked "index out of range [-1]".
Proof. repeat split; reflexivity. Qed.

Lemma C3_open_creates_the_directory_only_witness :
  dir_exists (fs (fst Toy.just_opened)) "lvl" = true
  /\ indexFiles (snd Toy.just_opened) = []
  /\ Compact (fst Toy.just_opened) (snd Toy.just_opened) Toy.inputs7 []
     = (fst Toy.just_opened, snd Toy.just_opened,
        Panicked "index out of range [-1]")
  /\ recover (fst Toy.just_opened) (snd Toy.just_opened) []
     = (fst Toy.level0, snd Toy.level0, RecoverReturned [] None).
Proof.
  destruct (C3_open_creates_the_directory_only (codec := Toy.codec)
              Toy.world0 (fst Toy.just_opened) "lvl" 100 Toy.compaction
              (snd Toy.just_opened) eq_refl)
    as (Hd & _ & _ & Hi & _ & _ & Hc & Hr).
  split; [exact Hd|]. split; [exact Hi|].
  split; [apply Hc; discriminate|].
  apply (Hr [] (fs (fst Toy.level0))
            (mkFile ("lvl", "00000000000000000000.idx") 0 0 true false));
    reflexivity.
Defined.

(** The claim C9 fails on a level of two files with an empty active file
    when the snapshot directory already holds the first: [Snapshot] returns
    the error of the link, not nil. *)
Lemma C9_counterexample :
  offset Toy.rotated_level = 0
  /\ snd (Snapshot Toy.snapshotted_world Toy.rotated_level "snap")
     = Returned (Some "link: file exists").
Proof. split; reflexivity. Qed.

Lemma C9_snapshot_links_then_rotates_witness :
  Snapshot Toy.snapshotted_world Toy.rotated_level "snap"
  = (Toy.snapshotted_world, Toy.rotated_level,
     Returned (Some "link: file exists"))
  /\ snd (Snapshot (fst (fst Toy.compacted7)) (snd (fst Toy.compacted7)) "snap")
     = Returned None.
Proof.
  split.
  - rewrite (proj1 (C9_snapshot_links_then_rotates (codec := Toy.codec)
                      Toy.snapshotted_world Toy.rotated_level "snap"
                      (fs Toy.snapshotted_world)
                      ltac:(discriminate) eq_refl) eq_refl).
    reflexivity.
  - rewrite (proj1 (proj2 (C9_snapshot_links_then_rotates (codec := Toy.codec)
                      (fst (fst Toy.compacted7)) (snd (fst Toy.compacted7))
                      "snap"
                      (fst (MkdirAll (fs (fst (fst Toy.compacted7))) "snap"))
                      ltac:(discriminate) eq_refl)
                    (fst (linkAll
                            (fst (MkdirAll (fs (fst (fst Toy.compacted7))) "snap"))
                            (indexFiles (snd (fst Toy.compacted7))) "snap"))
                    eq_refl eq_refl eq_refl)).
    reflexivity.
Defined.

End LevelClaims.

(** ** Recovery *)

Module RecoverFacts.
Import Go VFS Parquet Parts Index GoFacts VFSFacts CompactFacts.

Section WithCodec.
Context {codec : Codec}.

Lemma world_eta (w : World) : mkWorld (fs w) (logged w ++ []) (released w) = w.
Proof. destruct w. cbn. rewrite app_nil_r. reflexivity. Qed.

Lemma set_parts_same (f : FileCompaction) (n : Z) :
  n = parts f -> set_parts f n = f.
Proof. intros ->. destruct f. reflexivity. Qed.

(** The loop over the records of a file touches neither the file system nor
    the file list; it appends parts, counts each of them in the wait group
    and writes warnings. *)
Lemma recoverRecords_frame (options : list Option) (fuel : nat) :
  forall w f file offset fileParts w' f' ps r,
    recoverRecords fuel w f file offset options fileParts = (w', f', ps, r) ->
    exists more lg,
      ps = fileParts ++ more
      /\ w' = mkWorld (fs w) (logged w ++ lg) (released w)
      /\ f' = set_parts f (parts f + Z.of_nat (List.length more))
      /\ Forall (fun p => hooks p = levelHooks options) more.
Proof.
  assert (Hstop : forall (w : World) (f : FileCompaction) (fileParts : list Part),
             exists more lg,
               fileParts = fileParts ++ more
               /\ w = mkWorld (fs w) (logged w ++ lg) (released w)
               /\ f = set_parts f (parts f + Z.of_nat (List.length more))
               /\ Forall (fun p => hooks p = levelHooks options) more).
  { intros w f fileParts. exists [], []. rewrite app_nil_r, world_eta.
    rewrite set_parts_same by (simpl; lia). auto. }
  induction fuel as [|fuel IH];
    intros w f file offset fileParts w' f' ps r H.
  - cbn [recoverRecords] in H. injection H as <- <- <- <-. apply Hstop.
  - cbn [recoverRecords] in H.
    destruct (offset >? 0); [|injection H as <- <- <- <-; apply Hstop].
    destruct (negb _); [injection H as <- <- <- <-; apply Hstop|].
    destruct (ReadSection _ _ _ _) as [bytes|e];
      [|injection H as <- <- <- <-; apply Hstop].
    destruct (OpenFile bytes) as [pf|e];
      [|injection H as <- <- <- <-; apply Hstop].
    destruct (NewSerializedBuffer pf) as [buf|e];
      [|injection H as <- <- <- <-; apply Hstop].
    assert (Hgo : forall w0 tx lg0,
               w0 = mkWorld (fs w) (logged w ++ lg0) (released w) ->
               recoverRecords fuel w0 (set_parts f (parts f + 1)) file
                 (to_int64
                    (offset - 8
                     - to_int64 (Uint64 (fst (ReadAt (fs w) file 8 (offset - 8))))))
                 options
                 (fileParts ++
                    [NewParquetPart (to_uint64 tx) buf
                       (options ++ [WithRelease LevelDone])])
               = (w', f', ps, r) ->
               exists more lg,
                 ps = fileParts ++ more
                 /\ w' = mkWorld (fs w) (logged w ++ lg) (released w)
                 /\ f' = set_parts f (parts f + Z.of_nat (List.length more))
                 /\ Forall (fun p => hooks p = levelHooks options) more).
    { intros w0 tx lg0 -> H0. apply IH in H0.
      destruct H0 as (more & lg & -> & -> & -> & Hall).
      eexists (_ :: more), (lg0 ++ lg). rewrite <- app_assoc. cbn [app].
      split; [reflexivity|]. cbn [fs logged released].
      split; [rewrite app_assoc; reflexivity|].
      split.
      - unfold set_parts.
        cbn [dir compact maxSize indexFiles Index.offset parts].
        f_equal. cbn [List.length]. lia.
      - constructor; [reflexivity | exact Hall]. }
    destruct (Lookup (ParquetFile buf) ParquetCompactionTXKey) as [txstr|].
    + destruct (Atoi txstr) as [v|].
      * apply (Hgo w v []); [symmetry; apply world_eta | exact H].
      * eapply Hgo; [|exact H]. reflexivity.
    + eapply Hgo; [|exact H]. reflexivity.
Qed.

Lemma fire_level_hooks (hs : list ReleaseFunc) :
  forall w f,
    Forall (fun r => r <> LevelDone) hs ->
    1 <= parts f ->
    exists ids,
      fire w f (hs ++ [LevelDone])
      = (mkWorld (fs w) (logged w) (released w ++ ids),
         set_parts f (parts f - 1), None).
Proof.
  induction hs as [|r hs IH]; intros w f Hall Hp.
  - cbn [app fire]. replace (parts f - 1 <? 0) with false
      by (symmetry; apply Z.ltb_ge; lia).
    exists []. rewrite app_nil_r. destruct w. reflexivity.
  - inversion Hall as [|? ? Hr Hrest]; subst.
    destruct r as [|id]; [congruence|]. cbn [app fire].
    destruct (IH (mkWorld (fs w) (logged w) (released w ++ [id])) f Hrest Hp)
      as [ids E].
    exists (id :: ids). rewrite E. cbn [fs logged released].
    rewrite <- app_assoc. reflexivity.
Qed.

Lemma releaseAll_level_parts (options : list Option) (ps : list Part) :
  forall w f,
    Forall (fun o => o <> WithRelease LevelDone) options ->
    Forall (fun p => hooks p = levelHooks options) ps ->
    Z.of_nat (List.length ps) <= parts f ->
    exists ids,
      releaseAll w f ps
      = (mkWorld (fs w) (logged w) (released w ++ ids),
         set_parts f (parts f - Z.of_nat (List.length ps)), None).
Proof.
  intros w f Hopt. revert w f.
  assert (Hhs : Forall (fun r => r <> LevelDone) (map releaseOf options)).
  { induction Hopt as [|o l Ho Hl IHl]; constructor; [|exact IHl].
    destruct o as [r]. cbn. intros ->. apply Ho. reflexivity. }
  induction ps as [|p ps IH]; intros w f Hall Hn.
  - exists []. cbn [releaseAll List.length Z.of_nat].
    rewrite app_nil_r, Z.sub_0_r. destruct w, f. reflexivity.
  - inversion Hall as [|? ? Hp Hrest]; subst.
    cbn [releaseAll]. unfold Release. rewrite Hp. unfold levelHooks.
    rewrite map_app. cbn [map releaseOf].
    cbn [List.length] in Hn.
    destruct (fire_level_hooks _ w f Hhs ltac:(lia)) as [ids E]. rewrite E.
    destruct (IH (mkWorld (fs w) (logged w) (released w ++ ids))
                 (set_parts f (parts f - 1)) Hrest
                 ltac:(cbn [set_parts parts]; lia)) as [ids' E'].
    rewrite E'. exists (ids ++ ids'). cbn [fs logged released set_parts parts
      dir compact maxSize indexFiles offset].
    rewrite <- app_assoc. unfold set_parts.
    cbn [dir compact maxSize indexFiles offset parts List.length].
    f_equal. f_equal. f_equal. lia.
Qed.

Lemma ReadSection_Ok (fs0 : FS) (h : VFS.File) (off n : Z) (bytes : list byte) :
  ReadSection fs0 h off n = Ok bytes ->
  fclosed h = false /\ 0 <= off /\ 0 <= n /\ off + n <= Size fs0 (fino h)
  /\ bytes = slice (content fs0 (fino h)) (Z.to_nat off) (Z.to_nat n).
Proof.
  unfold ReadSection. destruct (fclosed h); [discriminate|].
  destruct (Z.ltb_spec off 0); [discriminate|].
  destruct (Z.ltb_spec n 0); [discriminate|].
  destruct (Z.ltb_spec (Size fs0 (fino h)) (off + n)); [discriminate|].
  cbn [orb]. intros Hok. injection Hok as <-. auto.
Qed.

Lemma ReadAt_8 (fs0 : FS) (h : VFS.File) (off : Z) :
  List.length (fst (ReadAt fs0 h 8 off)) = 8%nat -> 0 <= off.
Proof.
  unfold ReadAt. destruct (fclosed h); [discriminate|].
  destruct (Z.ltb_spec off 0); [discriminate|]. lia.
Qed.

(** The model's fuel is never the reason the loop over a file ends: the
    offset shrinks by at least the eight bytes of a trailer in every
    iteration that goes on. *)
Lemma recoverRecords_fuel (options : list Option) (fuel : nat) :
  forall w f file offset fileParts,
    offset <= MaxInt64 ->
    (Z.to_nat offset < fuel)%nat ->
    snd (recoverRecords fuel w f file offset options fileParts) <> OutOfFuel.
Proof.
  induction fuel as [|fuel IH]; intros w f file offset fileParts Hmax Hfuel;
    [lia|].
  cbn [recoverRecords].
  destruct (Z.gtb_spec offset 0); [|discriminate].
  destruct (negb _) eqn:E8; [discriminate|].
  apply negb_false_iff, Nat.eqb_eq, ReadAt_8 in E8.
  set (ps := to_int64 (Uint64 _)).
  destruct (ReadSection _ _ _ _) as [bytes|e] eqn:Ers; [|discriminate].
  destruct (OpenFile bytes) as [pf|e]; [|discriminate].
  destruct (NewSerializedBuffer pf) as [buf|e]; [|discriminate].
  apply ReadSection_Ok in Ers. destruct Ers as (_ & Hoff & Hps & _).
  pose proof (to_int64_range (Uint64 (fst (ReadAt (fs w) file 8 (offset - 8)))))
    as Hr. fold ps in Hr.
  rewrite to_int64_small in Hoff by (unfold MinInt64, MaxInt64 in *; lia).
  rewrite (to_int64_small (offset - 8 - ps))
    by (unfold MinInt64, MaxInt64 in *; lia).
  destruct (match Lookup (ParquetFile buf) ParquetCompactionTXKey with
            | Some txstr =>
                match Atoi txstr with
                | Some v => (w, v)
                | None => (Log w Warn "failed to parse compaction_tx metadata", 0)
                end
            | None => (Log w Warn "failed to find compaction_tx metadata", 0)
            end) as [w0 tx].
  apply IH; lia.
Qed.

(** C7. At a record that opens as a row group but whose key/value
    metadata lack [compaction_tx], or hold a value [strconv.Atoi] rejects,
    one iteration of the loop of [recover] logs a warning, counts and
    appends a part with transaction 0 built on that row group, and goes on
    with the record before it; whatever the rest of the loop does, it
    keeps that part in the list of the file and the warning in the log. *)
Theorem C7_missing_tx_recovered_as_zero
        (fuel : nat) (w : World) (f : FileCompaction) (file : VFS.File)
        (offset : Z) (options : list Option) (fileParts : list Part)
        (bytes : list byte) (pf : File) (buf : SerializedBuffer) :
  offset > 0 ->
  List.length (fst (ReadAt (fs w) file 8 (offset - 8))) = 8%nat ->
  ReadSection (fs w) file
    (to_int64 (offset - 8
               - to_int64 (Uint64 (fst (ReadAt (fs w) file 8 (offset - 8))))))
    (to_int64 (Uint64 (fst (ReadAt (fs w) file 8 (offset - 8)))))
  = Ok bytes ->
  OpenFile bytes = Ok pf ->
  NewSerializedBuffer pf = Ok buf ->
  (Lookup (ParquetFile buf) ParquetCompactionTXKey = None
   \/ exists txstr,
        Lookup (ParquetFile buf) ParquetCompactionTXKey = Some txstr
        /\ Atoi txstr = None) ->
  exists msg part,
    TX part = 0 /\ Buf part = buf
    /\ recoverRecords (S fuel) w f file offset options fileParts
       = recoverRecords fuel (Log w Warn msg) (set_parts f (parts f + 1)) file
           (to_int64
              (offset - 8
               - to_int64 (Uint64 (fst (ReadAt (fs w) file 8 (offset - 8))))))
           options (fileParts ++ [part])
    /\ forall w' f' ps r,
        recoverRecords (S fuel) w f file offset options fileParts
        = (w', f', ps, r) ->
        In part ps /\ In (Warn, msg) (logged w').
Proof.
  intros Hoff H8 Hrs Hof Hnb Hmeta.
  assert (Hstep : exists msg,
             recoverRecords (S fuel) w f file offset options fileParts
             = recoverRecords fuel (Log w Warn msg) (set_parts f (parts f + 1))
                 file
                 (to_int64
                    (offset - 8
                     - to_int64
                         (Uint64 (fst (ReadAt (fs w) file 8 (offset - 8))))))
                 options
                 (fileParts ++
                    [NewParquetPart (to_uint64 0) buf
                       (options ++ [WithRelease LevelDone])])).
  { cbn [recoverRecords].
    replace (offset >? 0) with true by (symmetry; apply Z.gtb_lt; lia).
    rewrite H8. cbn [Nat.eqb negb]. rewrite Hrs, Hof, Hnb.
    destruct Hmeta as [-> | (txstr & -> & ->)]; eexists; reflexivity. }
  destruct Hstep as [msg Hstep].
  exists msg, (NewParquetPart (to_uint64 0) buf
                 (options ++ [WithRelease LevelDone])).
  split; [reflexivity|]. split; [reflexivity|]. split; [exact Hstep|].
  intros w' f' ps r H. rewrite Hstep in H.
  apply recoverRecords_frame in H.
  destruct H as (more & lg & -> & -> & _ & _). split.
  - apply in_or_app. left. apply in_or_app. right. left. reflexivity.
  - cbn [logged Log]. apply in_or_app. left. apply in_or_app. right.
    left. reflexivity.
Qed.

(** C2, as the code has it.  When the loop over the records of a file ends
    with an error, the callback of the walk releases every part recovered
    from that file (the wait group is back where it was, the callers'
    hooks have run), closes the file and drops it from the file list, and
    returns the error: the walk ends there, whatever entries come after,
    and [recover] returns that error and no part, also none of those
    recovered from the files before. *)
Theorem C2_failed_file_ends_the_walk
        (w w2 : World) (f f2 : FileCompaction) (options : list Option)
        (recovered fileParts : list Part) (path : Path) (ino : nat)
        (rest : list (Path * nat)) (opened : VFS.File) (e : string) :
  0 <= parts f ->
  Forall (fun o => o <> WithRelease LevelDone) options ->
  Ext (Base path) = IndexFileExtension ->
  Size (fs w) ino <> 0 ->
  Open (fs w) path = Ok opened ->
  recoverRecords (Z.to_nat (Size (fs w) ino) + 1) w
    (set_files f (indexFiles f ++ [opened]) (offset f)) opened
    (Size (fs w) ino) options []
  = (w2, f2, fileParts, Finished (Some e)) ->
  (exists w3,
      walk ((path, ino) :: rest) w f options recovered
      = (w3, f, WalkReturned recovered (Some e))
      /\ fs w3 = fs w)
  /\ (forall w0 f0 entries w1 f1,
         ReadDir (fs w0) (dir f0) = Some entries ->
         walk entries w0 f0 options [] = (w1, f1, WalkReturned recovered (Some e)) ->
         snd (recover w0 f0 options) = RecoverReturned [] (Some e)).
Proof.
  intros Hp Hopt Hext Hsize Hopen Hloop. split.
  - cbn [walk]. rewrite Hext. cbn [String.eqb negb].
    replace (String.eqb IndexFileExtension IndexFileExtension) with true
      by reflexivity.
    cbn [negb].
    destruct (Z.eqb_spec (Size (fs w) ino) 0) as [E|_]; [contradiction|].
    unfold openIndexFile. rewrite Hopen, Hloop.
    destruct (recoverRecords_frame _ _ _ _ _ _ _ _ _ _ _ Hloop)
      as (more & lg & Hps & -> & -> & Hall).
    cbn [app] in Hps. subst more.
    destruct (releaseAll_level_parts options fileParts
                (mkWorld (fs w) (logged w ++ lg) (released w))
                (set_parts (set_files f (indexFiles f ++ [opened]) (offset f))
                   (parts (set_files f (indexFiles f ++ [opened]) (offset f))
                    + Z.of_nat (List.length fileParts)))
                Hopt Hall ltac:(cbn [set_parts set_files parts]; lia))
      as [ids Hrel].
    rewrite Hrel.
    unfold file, set_parts, set_files.
    cbn [indexFiles dir compact maxSize offset parts].
    destruct (indexFiles f ++ [opened]) as [|a t] eqn:El;
      [destruct (indexFiles f); discriminate|].
    rewrite <- El, removelast_last.
    match goal with
    | |- exists w3, (?W, _, _) = _ /\ _ => exists W
    end.
    split.
    + f_equal. f_equal. destruct f. cbn. f_equal. lia.
    + unfold LogErr. destruct (snd (Close (last t a))); reflexivity.
  - intros w0 f0 entries w1 f1 Hrd Hwalk. unfold recover.
    rewrite Hrd, Hwalk.
    destruct (createIndexFile w1 f1 _) as [[w4 f4] [h|e']]; reflexivity.
Qed.

(** [recover] always returns or panics: the model never runs out of fuel. *)
Lemma walk_fuel (options : list Option) (entries : list (Path * nat)) :
  forall w f recovered,
    snd (walk entries w f options recovered) <> WalkOutOfFuel.
Proof.
  induction entries as [|[path ino] rest IH]; intros w f recovered;
    [discriminate|].
  cbn [walk]. destruct (negb _); [apply IH|].
  destruct (Size (fs w) ino =? 0); [apply IH|].
  destruct (openIndexFile w f path) as [f1 [opened|e]]; [|discriminate].
  pose proof (recoverRecords_fuel options (Z.to_nat (Size (fs w) ino) + 1)
                w f1 opened (Size (fs w) ino) []
                ltac:(apply to_int64_range) ltac:(lia)) as Hfuel.
  destruct (recoverRecords _ w f1 opened _ options [])
    as [[[w2 f2] fileParts] [[e|]|]]; cbn [snd] in Hfuel.
  - destruct (releaseAll w2 f2 fileParts) as [[w3 f3] [m|]]; [discriminate|].
    destruct (file f3); discriminate.
  - apply IH.
  - congruence.
Qed.

Lemma recover_total (w : World) (f : FileCompaction) (options : list Option) :
  snd (recover w f options) <> RecoverOutOfFuel.
Proof.
  unfold recover.
  destruct (ReadDir (fs w) (dir f)) as [entries|].
  - pose proof (walk_fuel options entries w f []) as H.
    destruct (walk entries w f options []) as [[w1 f1] r].
    destruct (createIndexFile w1 f1 _) as [[w2 f2] [h|e]];
      destruct r as [|m|rec [e'|]]; cbn [snd] in *; congruence.
  - destruct (createIndexFile w f _) as [[w2 f2] [h|e]]; discriminate.
Qed.

End WithCodec.

Lemma C7_missing_tx_recovered_as_zero_witness :
  exists msg part,
    @TX Toy.codec part = 0
    /\ Buf part = Toy.mkRowGroup [] [x01; x02; x03]
    /\ forall w' f' ps r,
        recoverRecords 3 (fst Toy.bare_level) (Toy.closed_level Toy.compaction)
          (mkFile ("lvl", "00000000000000000000.idx") 0 0 false false) 13 [] []
        = (w', f', ps, r) ->
        In part ps /\ In (Warn, msg) (logged w').
Proof.
  destruct (C7_missing_tx_recovered_as_zero (codec := Toy.codec) 2
              (fst Toy.bare_level) (Toy.closed_level Toy.compaction)
              (mkFile ("lvl", "00000000000000000000.idx") 0 0 false false)
              13 [] [] [x50; x00; x01; x02; x03]
              (Toy.mkRowGroup [] [x01; x02; x03])
              (Toy.mkRowGroup [] [x01; x02; x03])
              eq_refl eq_refl eq_refl eq_refl eq_refl (or_introl eq_refl))
    as (msg & part & H1 & H2 & _ & H4).
  exists msg, part. auto.
Defined.

(** A file without [compaction_tx] comes back, on reopening the level, as
    one part with transaction 0. *)
Example recover_without_metadata :
  Toy.reopen Toy.compaction (fst Toy.bare_level)
  = RecoverReturned
      [@NewParquetPart Toy.codec 0 (Toy.mkRowGroup [] [x01; x02; x03])
         [WithRelease LevelDone]] None.
Proof. reflexivity. Qed.

(** The claim C2 fails on a directory of three files of which the second
    is damaged: [recover] returns the error and no part, and the third
    file has not been opened, although the first and the third hold a part
    each, as recovering the directory without the damaged file shows. *)
Lemma C2_counterexample :
  snd (recover Toy.damaged_world (Toy.closed_level Toy.compaction) [])
  = RecoverReturned [] (Some "failed to read size from file")
  /\ map fname
       (indexFiles
          (snd (fst (recover Toy.damaged_world
                       (Toy.closed_level Toy.compaction) []))))
     = [("lvl", "00000000000000000000.idx");
        ("lvl", "00000000000000000001.idx")]
  /\ snd (recover Toy.healthy_world (Toy.closed_level Toy.compaction) [])
     = RecoverReturned [Toy.part7; Toy.part9] None.
Proof. repeat split; reflexivity. Qed.

Lemma C2_failed_file_ends_the_walk_witness :
  (exists w3,
      walk [(("lvl", "00000000000000000001.idx"), 1%nat);
            (("lvl", "00000000000000000002.idx"), 2%nat)]
        Toy.damaged_world (snd (fst Toy.after_first_file)) [] [Toy.part7]
      = (w3, snd (fst Toy.after_first_file),
         WalkReturned [Toy.part7] (Some "failed to read size from file"))
      /\ fs w3 = fs Toy.damaged_world)
  /\ snd (recover Toy.damaged_world (Toy.closed_level Toy.compaction) [])
     = RecoverReturned [] (Some "failed to read size from file").
Proof.
  pose proof (C2_failed_file_ends_the_walk (codec := Toy.codec)
                Toy.damaged_world Toy.damaged_world
                (snd (fst Toy.after_first_file))
                (set_files (snd (fst Toy.after_first_file))
                   (indexFiles (snd (fst Toy.after_first_file))
                    ++ [mkFile ("lvl", "00000000000000000001.idx") 1 0 false
                          false])
                   0)
                [] [Toy.part7] []
                ("lvl", "00000000000000000001.idx") 1%nat
                [(("lvl", "00000000000000000002.idx"), 2%nat)]
                (mkFile ("lvl", "00000000000000000001.idx") 1 0 false false)
                "failed to read size from file"
                ltac:(vm_compute; discriminate) (Forall_nil _) eq_refl
                ltac:(vm_compute; discriminate) eq_refl eq_refl) as [H1 H2].
  split; [exact H1|].
  apply (H2 Toy.damaged_world (Toy.closed_level Toy.compaction)
            [(("lvl", "00000000000000000000.idx"), 0%nat);
             (("lvl", "00000000000000000001.idx"), 1%nat);
             (("lvl", "00000000000000000002.idx"), 2%nat)]
            (fst (fst (walk
               [(("lvl", "00000000000000000000.idx"), 0%nat);
                (("lvl", "00000000000000000001.idx"), 1%nat);
                (("lvl", "00000000000000000002.idx"), 2%nat)]
               Toy.damaged_world (Toy.closed_level Toy.compaction) [] [])))
            (snd (fst Toy.after_first_file)));
    reflexivity.
Defined.

End RecoverFacts.

(** ** The round trip through the files *)

Module RoundTrip.
Import Go VFS Parquet Parts Index GoFacts VFSFacts CompactFacts RecoverFacts.

Lemma slice_app_mid (a b c : list byte) :
  slice (a ++ b ++ c) (List.length a) (List.length b) = b.
Proof.
  unfold slice. rewrite skipn_app, skipn_all, Nat.sub_diag. cbn [app skipn].
  rewrite firstn_app, firstn_all, Nat.sub_diag, firstn_O. apply app_nil_r.
Qed.

Lemma record_length (pl : list byte) :
  List.length (record pl) = (List.length pl + 8)%nat.
Proof. unfold record. rewrite length_app, PutUint64_length. reflexivity. Qed.

Lemma recordsOf_app (a b : list (list byte)) :
  recordsOf (a ++ b) = recordsOf a ++ recordsOf b.
Proof. unfold recordsOf. rewrite map_app, concat_app. reflexivity. Qed.

Lemma recordsOf_length (pls : list (list byte)) :
  (8 * List.length pls <= List.length (recordsOf pls))%nat.
Proof.
  induction pls as [|pl pls IH]; [simpl; lia|].
  change (recordsOf (pl :: pls)) with (record pl ++ recordsOf pls).
  rewrite length_app, record_length. cbn [List.length]. lia.
Qed.

Section WithCodec.
Context {codec : Codec}.

Lemma asRecovered_new (tx : Z) (buf : SerializedBuffer) (options : list Option) :
  asRecovered (NewParquetPart tx buf options)
  = NewParquetPart (recoveredStamp tx) buf options.
Proof. reflexivity. Qed.

(** One iteration of the loop of [recover] at the end of a record that
    [Compact] wrote. *)
Lemma recoverRecords_step
      (fuel : nat) (w : World) (f : FileCompaction) (file : VFS.File)
      (options : list Option) (acc : list Part)
      (pre pl tail : list byte) (p : Part) :
  content (fs w) (fino file) = pre ++ record pl ++ tail ->
  fclosed file = false ->
  Z.of_nat (List.length (pre ++ record pl ++ tail)) <= MaxInt64 ->
  recorded options pl p ->
  exists lg,
    recoverRecords (S fuel) w f file
      (Z.of_nat (List.length (pre ++ record pl))) options acc
    = recoverRecords fuel
        (mkWorld (fs w) (logged w ++ lg) (released w))
        (set_parts f (parts f + 1)) file
        (Z.of_nat (List.length pre)) options (acc ++ [asRecovered p]).
Proof.
  intros Hc Hcl Hmax (pf & buf & tx & Hof & Hnb & Hlk & Htx & ->).
  rewrite !length_app, record_length in Hmax.
  set (n := List.length pl) in *. set (k := List.length pre) in *.
  assert (Hoff : Z.of_nat (List.length (pre ++ record pl)) - 8
                 = Z.of_nat (k + n)).
  { rewrite length_app, record_length. fold n k. lia. }
  assert (Hread : fst (ReadAt (fs w) file 8
                         (Z.of_nat (List.length (pre ++ record pl)) - 8))
                  = PutUint64 (Z.of_nat n)).
  { rewrite Hoff. unfold ReadAt. rewrite Hcl.
    replace (Z.of_nat (k + n) <? 0) with false
      by (symmetry; apply Z.ltb_ge; lia).
    cbn [fst]. rewrite Hc, Nat2Z.id. unfold record.
    replace (pre ++ (pl ++ PutUint64 (Z.of_nat (List.length pl))) ++ tail)
      with ((pre ++ pl) ++ PutUint64 (Z.of_nat (List.length pl)) ++ tail)
      by (rewrite <- !app_assoc; reflexivity).
    replace (k + n)%nat with (List.length (pre ++ pl))
      by (rewrite length_app; reflexivity).
    change 8%nat with (List.length (PutUint64 (Z.of_nat (List.length pl)))).
    apply slice_app_mid. }
  cbn [recoverRecords].
  replace (Z.of_nat (List.length (pre ++ record pl)) >? 0) with true
    by (symmetry; apply Z.gtb_lt; lia).
  rewrite Hread, PutUint64_length. cbn [Nat.eqb negb].
  rewrite Uint64_PutUint64.
  rewrite (to_uint64_small (Z.of_nat n)) by (unfold MaxInt64 in *; lia).
  rewrite (to_int64_small (Z.of_nat n)) by (unfold MinInt64, MaxInt64 in *; lia).
  rewrite Hoff.
  replace (Z.of_nat (k + n) - Z.of_nat n) with (Z.of_nat k) by lia.
  rewrite (to_int64_small (Z.of_nat k)) by (unfold MinInt64, MaxInt64 in *; lia).
  assert (Hsec : ReadSection (fs w) file (Z.of_nat k) (Z.of_nat n) = Ok pl).
  { unfold ReadSection. rewrite Hcl.
    replace (Z.of_nat k <? 0) with false by (symmetry; apply Z.ltb_ge; lia).
    replace (Z.of_nat n <? 0) with false by (symmetry; apply Z.ltb_ge; lia).
    unfold Size. rewrite Hc, !length_app, record_length. fold n k.
    rewrite to_int64_small by (unfold MinInt64, MaxInt64 in *; lia).
    replace (Z.of_nat (k + (n + 8 + List.length tail)) <? Z.of_nat k + Z.of_nat n)
      with false by (symmetry; apply Z.ltb_ge; lia).
    cbn [orb]. rewrite !Nat2Z.id. unfold record. rewrite <- app_assoc.
    f_equal. apply slice_app_mid. }
  rewrite Hsec, Hof, Hnb, Hlk, (Atoi_FormatUint tx Htx).
  rewrite asRecovered_new. unfold recoveredStamp.
  destruct (Z.leb_spec tx MaxInt64).
  - exists []. rewrite world_eta.
    rewrite (to_uint64_small tx) by lia. reflexivity.
  - eexists. reflexivity.
Qed.

(** The loop of [recover] over a file of records: the parts come back last
    record first, each with the stamp [strconv.Atoi] leaves it. *)
Lemma recoverRecords_records (options : list Option)
      (rpls : list (list byte)) (rps : list Part) :
  Forall2 (recorded options) rpls rps ->
  forall fuel w f file tail acc,
    content (fs w) (fino file) = recordsOf (rev rpls) ++ tail ->
    fclosed file = false ->
    Z.of_nat (List.length (recordsOf (rev rpls) ++ tail)) <= MaxInt64 ->
    (List.length rpls < fuel)%nat ->
    exists lg,
      recoverRecords fuel w f file
        (Z.of_nat (List.length (recordsOf (rev rpls)))) options acc
      = (mkWorld (fs w) (logged w ++ lg) (released w),
         set_parts f (parts f + Z.of_nat (List.length rpls)),
         acc ++ map asRecovered rps, Finished None).
Proof.
  induction 1 as [|pl p rpls rps Hrec Hall IH];
    intros fuel w f file tail acc Hc Hcl Hmax Hfuel.
  - destruct fuel as [|fuel]; [simpl in Hfuel; lia|].
    exists []. cbn. rewrite !app_nil_r, Z.add_0_r.
    destruct w, f. reflexivity.
  - destruct fuel as [|fuel]; [simpl in Hfuel; lia|].
    cbn [rev] in *. rewrite recordsOf_app in *.
    change (recordsOf [pl]) with (record pl ++ []) in *.
    rewrite app_nil_r in *. rewrite <- app_assoc in Hc, Hmax.
    destruct (recoverRecords_step fuel w f file options acc
                (recordsOf (rev rpls)) pl tail p Hc Hcl Hmax Hrec) as [lg0 E].
    rewrite E.
    destruct (IH fuel (mkWorld (fs w) (logged w ++ lg0) (released w))
                (set_parts f (parts f + 1)) file (record pl ++ tail)
                (acc ++ [asRecovered p]) Hc Hcl Hmax
                ltac:(cbn [List.length] in Hfuel; lia)) as [lg E'].
    rewrite E'. exists (lg0 ++ lg). cbn [fs logged released map].
    rewrite <- !app_assoc. cbn [app]. unfold set_parts.
    cbn [dir compact maxSize indexFiles offset parts List.length].
    f_equal. f_equal. f_equal. f_equal. lia.
Qed.

(** One successful [Compact] on a level that appends to its file: the file
    gains one record, the record of the part returned. *)
Lemma Compact_appends
      (w w' : World) (f f' : FileCompaction) (toCompact ps : list Part)
      (options : list Option) (pre post : Z) (h0 : VFS.File)
      (data : list byte) :
  appending w f h0 data ->
  honoursMetadata (compact f) ->
  0 <= firstTX toCompact < 2 ^ 64 ->
  Compact w f toCompact options = (w', f', Returned (ps, pre, post, None)) ->
  exists pl p,
    ps = [p] /\ recorded options pl p
    /\ appending w' f' h0 (data ++ record pl)
    /\ Z.of_nat (List.length (data ++ record pl)) <= MaxInt64
    /\ dirs (fs w') = dirs (fs w) /\ names (fs w') = names (fs w)
    /\ compact f' = compact f /\ dir f' = dir f.
Proof.
  intros (Hfiles & Hoff & Hdata & Hino & Hpos & Hcl) Hmeta Htx H.
  set (h := advanced h0 (Z.of_nat (List.length data))) in *.
  assert (Hf : file f = Returned h) by (unfold file; rewrite Hfiles; reflexivity).
  assert (Hv : valid_handle (fs w) h).
  { unfold valid_handle, h. cbn [advanced fino fpos]. rewrite Hdata, Hpos.
    split; [exact Hino | lia]. }
  destruct (Compact_success _ _ _ _ _ _ _ _ _ _ Hf Hv H)
    as (_ & Hpost & Hmax & Hw & Hf' & bytes & pf & buf & Hrs & Hof & Hnb & Hps).
  set (pl := payloadOf _ (fs w) h) in *.
  assert (Hfpos : fpos h = Z.of_nat (List.length data))
    by (unfold h; cbn [advanced fpos]; lia).
  assert (Hcontent : content (fs w') (fino h0) = data ++ record pl).
  { rewrite Hw. cbn [fs].
    change (fino h) with (fino h0).
    rewrite content_stored_eq by exact Hino.
    rewrite Hdata, Hfpos, Nat2Z.id, write_at_end.
    unfold record. rewrite Hpost. reflexivity. }
  assert (Hlen : Z.of_nat (List.length (data ++ record pl))
                 = Z.of_nat (List.length data) + post + 8).
  { rewrite length_app, record_length. lia. }
  exists pl, (NewParquetPart (firstTX toCompact) buf
                (options ++ [WithRelease LevelDone])).
  split; [exact Hps|]. split.
  { apply ReadSection_Ok in Hrs.
    destruct Hrs as (_ & _ & _ & _ & Hbytes).
    change (fino (advanced h (post + 8))) with (fino h0) in Hbytes.
    rewrite Hcontent, Hoff, Hpost, !Nat2Z.id in Hbytes.
    unfold record in Hbytes. rewrite slice_app_mid in Hbytes. subst bytes.
    exists pf, buf, (firstTX toCompact).
    repeat split; try assumption; try lia.
    eapply Hmeta; [|exact Hnb]. exact Hof. }
  split.
  { unfold appending. rewrite Hf'.
    cbn [indexFiles offset]. rewrite Hfiles. cbn [removelast app].
    unfold h. rewrite advanced_advanced, Hlen, Hoff.
    rewrite (Z.add_assoc _ post 8).
    rewrite to_int64_small by (unfold MinInt64, MaxInt64 in *; lia).
    repeat split; try assumption.
    rewrite Hw. cbn [fs stored inodes]. rewrite update_nth_length. exact Hino. }
  split; [rewrite Hlen; lia|].
  rewrite Hw, Hf'. repeat split.
Qed.

(** A sequence of successful calls of [Compact] appends the records of the
    parts it returns, in order. *)
Lemma compactAll_appends (options : list Option) (batches : list (list Part)) :
  forall w f w' f' produced h0 data,
    appending w f h0 data ->
    Z.of_nat (List.length data) <= MaxInt64 ->
    honoursMetadata (compact f) ->
    Forall (fun b => 0 <= firstTX b < 2 ^ 64) batches ->
    compactAll w f batches options = Some (w', f', produced) ->
    exists pls,
      Forall2 (recorded options) pls produced
      /\ appending w' f' h0 (data ++ recordsOf pls)
      /\ Z.of_nat (List.length (data ++ recordsOf pls)) <= MaxInt64
      /\ dirs (fs w') = dirs (fs w) /\ names (fs w') = names (fs w)
      /\ dir f' = dir f.
Proof.
  induction batches as [|b batches IH];
    intros w f w' f' produced h0 data Happ Hmax Hmeta Htx H.
  - cbn [compactAll] in H. injection H as <- <- <-.
    exists []. cbn [recordsOf map List.concat]. rewrite app_nil_r.
    split; [constructor|]. split; [exact Happ|]. split; [exact Hmax|].
    repeat split.
  - cbn [compactAll] in H.
    destruct (Compact w f b options) as [[w1 f1] [[[[ps pre] post] [e|]]|m]]
      eqn:Ec; try discriminate.
    destruct (compactAll w1 f1 batches options) as [[[w2 f2] ps']|] eqn:Er;
      [|discriminate].
    injection H as <- <- <-.
    inversion Htx as [|? ? Hb Hrest]; subst.
    destruct (Compact_appends _ _ _ _ _ _ _ _ _ _ _ Happ Hmeta Hb Ec)
      as (pl & p & -> & Hrec & Happ1 & Hmax1 & Hd1 & Hn1 & Hc1 & Hdir1).
    destruct (IH _ _ _ _ _ _ _ Happ1 Hmax1 ltac:(rewrite Hc1; exact Hmeta)
                 Hrest Er)
      as (pls & Hall & Happ2 & Hmax2 & Hd2 & Hn2 & Hdir2).
    exists (pl :: pls).
    change (recordsOf (pl :: pls)) with (record pl ++ recordsOf pls).
    rewrite app_assoc.
    split; [constructor; assumption|].
    split; [exact Happ2|]. split; [exact Hmax2|].
    repeat split; congruence.
Qed.

Lemma Forall2_rev {A B} (R : A -> B -> Prop) (l : list A) (l' : list B) :
  Forall2 R l l' -> Forall2 R (rev l) (rev l').
Proof.
  induction 1 as [|a b l l' Hab Hl IH]; [constructor|].
  cbn [rev]. apply Forall2_app; [exact IH | repeat constructor; exact Hab].
Qed.

(** The round trip as the code has it.  On a level that starts with one
    empty active file, after any sequence of successful calls of [Compact]
    with stamps that are uint64 numbers, opening the level again and
    calling [recover] returns the parts that were produced, last one first,
    each with its row group and its hooks, and with its stamp if that is at
    most the largest int64: a larger stamp comes back as 0. *)
Theorem recover_after_compactions
        (w w' : World) (f f' : FileCompaction) (batches : list (list Part))
        (options : list Option) (produced : list Part)
        (maxSize' : Z) (compact' : Compaction) :
  fresh w f ->
  honoursMetadata (compact f) ->
  Forall (fun b => 0 <= firstTX b < 2 ^ 64) batches ->
  compactAll w f batches options = Some (w', f', produced) ->
  exists f1,
    NewFileCompaction w' (dir f) maxSize' compact' = (w', Ok f1)
    /\ snd (recover w' f1 options)
       = RecoverReturned (rev (map asRecovered produced)) None.
Proof.
  intros (h0 & name & Hfiles & Hname & Hext & Hpos & Hcl & Hoff & Hino
          & Hdata & Hrd & Hlk) Hmeta Htx Hall.
  assert (Happ : appending w f h0 []).
  { unfold appending. cbn [List.length Z.of_nat].
    rewrite Hfiles. repeat split; try assumption.
    f_equal. destruct h0. unfold advanced. cbn in *. f_equal. lia. }
  destruct (compactAll_appends options batches _ _ _ _ _ _ _ Happ
              ltac:(cbn; unfold MaxInt64; lia) Hmeta Htx Hall)
    as (pls & Hrec & (Hfiles' & Hoff' & Hdata' & Hino' & _ & _) & Hmax
        & Hd & Hn & Hdir).
  cbn [app] in *.
  assert (Hrd' : ReadDir (fs w') (dir f) = Some [((dir f, name), fino h0)]).
  { unfold ReadDir, dir_exists in *. rewrite Hd, Hn. exact Hrd. }
  assert (Hlk' : lookup_name (fs w') (dir f, name) = Some (fino h0)).
  { unfold lookup_name in *. rewrite Hn. exact Hlk. }
  assert (Hdir_ex : dir_exists (fs w') (dir f) = true).
  { unfold ReadDir in Hrd'. destruct (dir_exists (fs w') (dir f));
      [reflexivity | discriminate]. }
  eexists. split.
  { unfold NewFileCompaction, MkdirAll. rewrite Hdir_ex.
    destruct w'. reflexivity. }
  unfold recover. cbn [dir fs]. rewrite Hrd'. cbn [walk Base snd].
  rewrite Hext. replace (String.eqb IndexFileExtension IndexFileExtension)
    with true by reflexivity.
  cbn [negb]. unfold Size. rewrite Hdata'.
  rewrite to_int64_small by (unfold MinInt64, MaxInt64 in *; lia).
  destruct pls as [|pl0 pls'] eqn:Epls.
  - inversion Hrec; subst. cbn [recordsOf map List.concat List.length Z.of_nat].
    cbn [Z.eqb walk map rev].
    destruct (createIndexFile _ _ _) as [[w2 f2] [h|e]]; reflexivity.
  - rewrite <- Epls in *. clear Epls pl0 pls'.
    destruct (Z.eqb_spec (Z.of_nat (List.length (recordsOf pls))) 0) as [E0|_].
    { destruct pls as [|pl pls'].
      - inversion Hrec; subst. cbn [walk map rev].
        destruct (createIndexFile _ _ _) as [[w2 f2] [h|e]]; reflexivity.
      - exfalso. pose proof (recordsOf_length (pl :: pls')) as Hl.
        cbn [List.length] in Hl. lia. }
    unfold openIndexFile, Open. rewrite Hlk'.
    set (opened := mkFile (dir f, name) (fino h0) 0 false false).
    apply Forall2_rev in Hrec.
    destruct (recoverRecords_records options (rev pls) (rev produced) Hrec
                (Z.to_nat (Z.of_nat (List.length (recordsOf pls))) + 1)
                w'
                (set_files
                   (mkFileCompaction (dir f) compact' maxSize' [] 0 0)
                   (indexFiles
                      (mkFileCompaction (dir f) compact' maxSize' [] 0 0)
                    ++ [opened])
                   (offset (mkFileCompaction (dir f) compact' maxSize' [] 0 0)))
                opened [] [])
      as [lg E].
    + rewrite rev_involutive, app_nil_r. exact Hdata'.
    + reflexivity.
    + rewrite rev_involutive, app_nil_r. exact Hmax.
    + rewrite length_rev, Nat2Z.id.
      pose proof (recordsOf_length pls). lia.
    + rewrite rev_involutive in E. rewrite E. cbn [walk app].
      rewrite map_rev.
      destruct (createIndexFile _ _ _) as [[w2 f2] [h|e]]; reflexivity.
Qed.

End WithCodec.

Lemma digits_acc_length (fuel : nat) :
  forall n acc,
    (String.length (digits_acc fuel n acc) <= fuel + String.length acc)%nat.
Proof.
  induction fuel as [|fuel IH]; intros n acc; [simpl; lia|].
  cbn [digits_acc]. destruct (n / 10 =? 0).
  - cbn [String.length]. lia.
  - eapply Nat.le_trans; [apply IH|]. cbn [String.length]. lia.
Qed.

Lemma list_byte_of_string_length (s : string) :
  List.length (list_byte_of_string s) = String.length s.
Proof.
  unfold list_byte_of_string. rewrite length_map.
  induction s as [|c s IH]; [reflexivity|]. cbn. f_equal. exact IH.
Qed.

Lemma get_put_string (s : string) (rest : list byte) :
  (String.length s <= 255)%nat ->
  Toy.get_string (Toy.put_string s ++ rest) = Some (s, rest).
Proof.
  intros Hs. unfold Toy.put_string, Toy.get_string. cbn [app].
  rewrite Z_of_byte_of_Z, Z.mod_small by lia. rewrite Nat2Z.id.
  rewrite length_app, list_byte_of_string_length.
  replace (String.length s + List.length rest <? String.length s)%nat
    with false by (symmetry; apply Nat.ltb_ge; lia).
  rewrite <- (list_byte_of_string_length s).
  rewrite firstn_app, firstn_all, Nat.sub_diag, firstn_O, app_nil_r.
  rewrite skipn_app, skipn_all, Nat.sub_diag. cbn [skipn app].
  rewrite string_of_list_byte_of_string. reflexivity.
Qed.

(** The codec of the examples keeps its contract. *)
Lemma toy_honours_metadata : @honoursMetadata Toy.codec Toy.compaction.
Proof.
  intros toCompact tx fs0 h pf buf Hof Hnb.
  cbn in Hnb. injection Hnb as <-.
  assert (Hdec : forall body,
             Toy.decode
               (Toy.encode
                  [KeyValueMetadata ParquetCompactionTXKey (FormatUint tx)] []
                ++ body) = Ok pf ->
             Toy.lookup pf ParquetCompactionTXKey = Some (FormatUint tx)).
  { intros body. unfold Toy.encode, Toy.decode. cbn [app].
    rewrite <- !app_assoc.
    rewrite get_put_string by (vm_compute; lia).
    rewrite get_put_string.
    2:{ pose proof (digits_acc_length 20 tx ""). unfold FormatUint.
        cbn [String.length] in *. lia. }
    intros H. injection H as <-. reflexivity. }
  revert Hof. unfold Toy.compaction. cbn [payloadOf OpenFile Toy.codec].
  destruct (Write_cases fs0 h
              (Toy.encode
                 [KeyValueMetadata ParquetCompactionTXKey (FormatUint tx)] []))
    as [(_ & _ & _ & E) | [e E]]; rewrite E.
  - rewrite Nat2Z.id, firstn_all. cbn [payloadOf].
    match goal with
    | |- context [Write ?a ?b (Toy.body_of toCompact)] =>
        destruct (Write a b (Toy.body_of toCompact)) as [[[fs2 h2] m2] err2]
    end.
    cbn [payloadOf]. rewrite app_nil_r. apply Hdec.
  - cbn [payloadOf]. cbn. discriminate.
Qed.

Lemma level0_fresh : @fresh Toy.codec (fst Toy.level0) (snd Toy.level0).
Proof.
  exists (mkFile ("lvl", "00000000000000000000.idx") 0 0 true false),
    "00000000000000000000.idx".
  repeat split; try reflexivity. vm_compute. lia.
Qed.

(** Two compactions with the stamps 7 and 2^63, then the level is opened
    again: the general statement, at this run. *)
Example recover_after_two_compactions :
  exists w' f' produced f1,
    Toy.two_compactions = Some (w', f', produced)
    /\ map TX produced = [7; 2 ^ 63]
    /\ @NewFileCompaction Toy.codec w' "lvl" 100 Toy.compaction = (w', Ok f1)
    /\ snd (recover w' f1 [])
       = RecoverReturned (rev (map asRecovered produced)) None
    /\ map TX (rev (map asRecovered produced)) = [0; 7].
Proof.
  destruct Toy.two_compactions as [[[w' f'] produced]|] eqn:E;
    [|vm_compute in E; discriminate].
  destruct (recover_after_compactions (codec := Toy.codec)
              (fst Toy.level0) w' (snd Toy.level0) f'
              [Toy.inputs7; Toy.inputs_big] [] produced 100 Toy.compaction
              level0_fresh toy_honours_metadata
              ltac:(repeat constructor; vm_compute; congruence) E)
    as (f1 & H1 & H2).
  exists w', f', produced, f1.
  split; [reflexivity|].
  assert (Hp : map TX produced = [7; 2 ^ 63]).
  { vm_compute in E. injection E as _ _ <-. reflexivity. }
  split; [exact Hp|]. split; [exact H1|]. split; [exact H2|].
  vm_compute in E. injection E as _ _ <-. reflexivity.
Qed.

(** C1, where the code departs from it.  A part compacted with the stamp
    2^63, a uint64, is written with [compaction_tx] = 9223372036854775808;
    after the level has been opened again, [recover] returns it with the
    stamp 0: [strconv.Atoi] parses into a signed int and rejects the
    number, and the rejection is handled as malformed metadata. *)
Theorem C1_stamp_above_int64_comes_back_as_zero :
  snd Toy.compacted_big
  = Returned
      ([@NewParquetPart Toy.codec (2 ^ 63)
          (Toy.mkRowGroup [("compaction_tx", "9223372036854775808")] [x04])
          [WithRelease LevelDone]], 1, 37, None)
  /\ Toy.reopen Toy.compaction (fst (fst Toy.compacted_big))
     = RecoverReturned
         [@NewParquetPart Toy.codec 0
            (Toy.mkRowGroup [("compaction_tx", "9223372036854775808")] [x04])
            [WithRelease LevelDone]] None
  /\ Atoi (FormatUint (2 ^ 63)) = None
  /\ recoveredStamp (2 ^ 63) = 0.
Proof. repeat split; reflexivity. Qed.

End RoundTrip.

(** ** More on pruning: the schema lookup, missing columns, soundness *)

Module PruningFacts.
Import Go Expr PruningClaims.

Lemma findFrom_spec (fields : list string) (name : string) :
  forall i,
    (findFrom fields name i = -1 /\ ~ In name fields /\ True)
    \/ (exists k,
           findFrom fields name i = i + Z.of_nat k
           /\ (k < List.length fields)%nat
           /\ nth_error fields k = Some name
           /\ Forall (fun f => f <> name) (firstn k fields))
    \/ (i < 0 /\ findFrom fields name i = -1).
Proof.
  induction fields as [|f rest IH]; intros i.
  - left. cbn. auto.
  - cbn [findFrom]. destruct (String.eqb_spec f name) as [E|E].
    + right. left. exists 0%nat. cbn. repeat split; try lia.
      * congruence.
      * constructor.
    + destruct (IH (i + 1)) as [(H1 & H2 & _) | [(k & H1 & H2 & H3 & H4) | (H1 & H2)]].
      * left. split; [exact H1|]. split; [|exact I].
        intros [H|H]; [congruence | contradiction].
      * right. left. exists (S k). cbn [List.length nth_error firstn].
        repeat split; try assumption; try lia.
        constructor; assumption.
      * destruct (Z.eq_dec (i + 1) 0) as [E0|E0].
        -- lia.
        -- right. right. split; [lia | exact H2].
Qed.

(** [findColumnIndex] returns -1 exactly when no field has the name, and
    otherwise the index of the first field that has it. *)
Theorem findColumnIndex_first_match (s : list string) (name : string) :
  (findColumnIndex s name = -1 /\ ~ In name s)
  \/ (exists k,
         findColumnIndex s name = Z.of_nat k
         /\ nth_error s k = Some name
         /\ Forall (fun f => f <> name) (firstn k s)).
Proof.
  unfold findColumnIndex.
  destruct (findFrom_spec s name 0)
    as [(H1 & H2 & _) | [(k & H1 & H2 & H3 & H4) | (H1 & _)]].
  - left. auto.
  - right. exists k. rewrite H1. auto.
  - lia.
Qed.

(** [Eval] on a row group without the column: with [ignoreMissingCol] the
    row group is kept; without it, [=] keeps it when the value is null or
    an empty byte array, [!=] when the value is a non-empty byte array, and
    every other operator discards it.  No chunk is read, and there is
    neither an error nor a panic. *)
Theorem Eval_missing_column (e : BinaryScalarExpr) (p : Particulate) :
  ~ In (ColumnName (Left e)) (SchemaFields p) ->
  Eval e p true = Returned (true, None)
  /\ Eval e p false
     = Returned
         (match Operator e with
          | OpEq =>
              IsNull (Right e)
              || (isByteArrayKind (Right e) && isEmptyString (Right e))
          | OpNotEq =>
              negb (IsNull (Right e)) && isByteArrayKind (Right e)
              && negb (isEmptyString (Right e))
          | _ => false
          end, None).
Proof.
  intros Hmiss.
  assert (Hidx : findColumnIndex (SchemaFields p) (ColumnName (Left e)) = -1).
  { destruct (findColumnIndex_first_match (SchemaFields p)
                (ColumnName (Left e))) as [[H _] | (k & _ & H & _)];
      [exact H|]. exfalso. apply Hmiss. eapply nth_error_In, H. }
  unfold Eval, Column. rewrite Hidx. cbn [Z.eqb negb andb].
  split; [reflexivity|].
  destruct (Right e) as [|k u d]; destruct (Operator e); cbn;
    try reflexivity;
    destruct k; cbn; try reflexivity; destruct d; reflexivity.
Qed.

Lemma Eval_missing_column_witness :
  Eval (mkBinaryScalarExpr (mkColumnRef "c") OpEq Null) two_columns true
  = Returned (true, None)
  /\ Eval (mkBinaryScalarExpr (mkColumnRef "c") OpEq Null) two_columns false
     = Returned (true, None).
Proof.
  apply (Eval_missing_column (mkBinaryScalarExpr (mkColumnRef "c") OpEq Null)
           two_columns).
  cbn. intros [H|[H|H]]; [discriminate | discriminate | exact H].
Defined.

(** [Eval] on a row group that has the column: the predicate is evaluated
    by [BinaryScalarOperation] on the chunk at the index of the first field
    with that name, whatever [ignoreMissingCol] is. *)
Theorem Eval_present_column (e : BinaryScalarExpr) (p : Particulate)
        (k : nat) (chunk : ColumnChunk) (ignoreMissingCol : bool) :
  nth_error (SchemaFields p) k = Some (ColumnName (Left e)) ->
  Forall (fun f => f <> ColumnName (Left e)) (firstn k (SchemaFields p)) ->
  nth_error (ColumnChunks p) k = Some chunk ->
  Eval e p ignoreMissingCol
  = BinaryScalarOperation chunk (Right e) (Operator e).
Proof.
  intros Hk Hfirst Hchunk.
  assert (Hidx : findColumnIndex (SchemaFields p) (ColumnName (Left e))
                 = Z.of_nat k).
  { destruct (findColumnIndex_first_match (SchemaFields p)
                (ColumnName (Left e))) as [[_ H] | (j & Hj & Hnj & Hfj)].
    - exfalso. apply H. eapply nth_error_In, Hk.
    - rewrite Hj. f_equal.
      destruct (Nat.lt_trichotomy j k) as [Hlt | [Heq | Hgt]]; [|exact Heq|].
      + exfalso. rewrite Forall_forall in Hfirst.
        apply (Hfirst (ColumnName (Left e))); [|reflexivity].
        rewrite <- (firstn_skipn k (SchemaFields p)) in Hnj.
        assert (Hlen : (k <= List.length (SchemaFields p))%nat).
        { apply Nat.lt_le_incl. apply nth_error_Some. congruence. }
        rewrite nth_error_app1 in Hnj
          by (rewrite length_firstn; lia).
        eapply nth_error_In, Hnj.
      + exfalso. rewrite Forall_forall in Hfj.
        apply (Hfj (ColumnName (Left e))); [|reflexivity].
        rewrite <- (firstn_skipn j (SchemaFields p)) in Hk.
        assert (Hlen : (j <= List.length (SchemaFields p))%nat).
        { apply Nat.lt_le_incl. apply nth_error_Some. congruence. }
        rewrite nth_error_app1 in Hk
          by (rewrite length_firstn; lia).
        eapply nth_error_In, Hk. }
  unfold Eval, Column. rewrite Hidx.
  replace (Z.of_nat k =? -1) with false by (symmetry; apply Z.eqb_neq; lia).
  cbn [negb]. rewrite Nat2Z.id, Hchunk. cbn [negb andb]. reflexivity.
Qed.

Lemma Eval_present_column_witness :
  Eval (mkBinaryScalarExpr (mkColumnRef "b") OpEq (Int64Value 6)) two_columns
    false
  = BinaryScalarOperation chunk_5_null_7 (Int64Value 6) OpEq.
Proof.
  apply (Eval_present_column
           (mkBinaryScalarExpr (mkColumnRef "b") OpEq (Int64Value 6))
           two_columns 1 chunk_5_null_7 false).
  - reflexivity.
  - repeat constructor. discriminate.
  - reflexivity.
Defined.

Lemma minLoop_int64 (pages : list Page) :
  forall m,
    isInt64 m = true ->
    forallb (fun p => isInt64 (MinValue p)) pages = true ->
    exists m',
      minLoop pages m = Returned m' /\ isInt64 m' = true
      /\ asInt64 m' <= asInt64 m
      /\ Forall (fun p => asInt64 m' <= asInt64 (MinValue p)) pages.
Proof.
  induction pages as [|p rest IH]; intros m Hm Hall.
  - exists m. cbn. repeat split; auto; lia.
  - cbn [forallb] in Hall. apply andb_true_iff in Hall as [Hp Hrest].
    cbn [minLoop]. destruct m as [|k u d]; [discriminate|].
    destruct k; try discriminate. cbn [IsNull compare].
    change (to_int64 (u64 (MinValue p))) with (asInt64 (MinValue p)).
    change (to_int64 u) with (asInt64 (Val Int64 u d)).
    unfold cmpZ.
    destruct (Z.ltb_spec (asInt64 (Val Int64 u d)) (asInt64 (MinValue p))).
    + destruct (IH (Val Int64 u d) eq_refl Hrest) as (m' & E & Hi & Hle & Hf).
      cbn [Z.eqb]. exists m'. rewrite E. repeat split; auto; try lia;
        try (constructor; [lia | exact Hf]).
    + destruct (Z.ltb_spec (asInt64 (MinValue p)) (asInt64 (Val Int64 u d))).
      * cbn [Z.eqb Pos.eqb].
        destruct (IH (MinValue p) Hp Hrest) as (m' & E & Hi & Hle & Hf).
        exists m'. rewrite E. repeat split; auto; try lia;
          try (constructor; [lia | exact Hf]).
      * destruct (IH (Val Int64 u d) eq_refl Hrest) as (m' & E & Hi & Hle & Hf).
        cbn [Z.eqb]. exists m'. rewrite E. repeat split; auto; try lia;
          try (constructor; [lia | exact Hf]).
Qed.

Lemma maxLoop_int64 (pages : list Page) :
  forall m,
    isInt64 m = true ->
    forallb (fun p => isInt64 (MaxValue p)) pages = true ->
    exists m',
      maxLoop pages m = Returned m' /\ isInt64 m' = true
      /\ asInt64 m <= asInt64 m'
      /\ Forall (fun p => asInt64 (MaxValue p) <= asInt64 m') pages.
Proof.
  induction pages as [|p rest IH]; intros m Hm Hall.
  - exists m. cbn. repeat split; auto; lia.
  - cbn [forallb] in Hall. apply andb_true_iff in Hall as [Hp Hrest].
    cbn [maxLoop]. destruct m as [|k u d]; [discriminate|].
    destruct k; try discriminate. cbn [IsNull compare].
    change (to_int64 (u64 (MaxValue p))) with (asInt64 (MaxValue p)).
    change (to_int64 u) with (asInt64 (Val Int64 u d)).
    unfold cmpZ.
    destruct (Z.ltb_spec (asInt64 (Val Int64 u d)) (asInt64 (MaxValue p))).
    + cbn [Z.eqb Pos.eqb].
      destruct (IH (MaxValue p) Hp Hrest) as (m' & E & Hi & Hle & Hf).
      exists m'. rewrite E. repeat split; auto; try lia;
        try (constructor; [lia | exact Hf]).
    + destruct (Z.ltb_spec (asInt64 (MaxValue p)) (asInt64 (Val Int64 u d))).
      * destruct (IH (Val Int64 u d) eq_refl Hrest) as (m' & E & Hi & Hle & Hf).
        cbn [Z.eqb]. exists m'. rewrite E. repeat split; auto; try lia;
          try (constructor; [lia | exact Hf]).
      * destruct (IH (Val Int64 u d) eq_refl Hrest) as (m' & E & Hi & Hle & Hf).
        cbn [Z.eqb]. exists m'. rewrite E. repeat split; auto; try lia;
          try (constructor; [lia | exact Hf]).
Qed.

Lemma int64Page_split (idx : ColumnIndex) :
  forallb int64Page idx = true ->
  forallb (fun p => isInt64 (MinValue p)) idx = true
  /\ forallb (fun p => isInt64 (MaxValue p)) idx = true.
Proof.
  induction idx as [|p rest IH]; [auto|].
  cbn [forallb]. unfold int64Page at 1. intros H.
  apply andb_true_iff in H as [Hp Hrest].
  apply andb_true_iff in Hp as [H1 H2].
  destruct (IH Hrest) as [I1 I2]. rewrite H1, H2, I1, I2. auto.
Qed.

(** On an int64 column whose pages all have their endpoints, [Min] is a
    lower bound of the page minima and [Max] an upper bound of the page
    maxima. *)
Lemma Min_Max_bounds (idx : ColumnIndex) :
  idx <> [] ->
  forallb int64Page idx = true ->
  exists lo hi,
    Min idx = Returned lo /\ Max idx = Returned hi
    /\ isInt64 lo = true /\ isInt64 hi = true
    /\ Forall (fun p => asInt64 lo <= asInt64 (MinValue p)
                        /\ asInt64 (MaxValue p) <= asInt64 hi) idx.
Proof.
  intros Hne Hall. destruct idx as [|p rest]; [congruence|].
  destruct (int64Page_split _ Hall) as [Hmin Hmax].
  cbn [forallb] in Hmin, Hmax.
  apply andb_true_iff in Hmin as [Hp1 Hr1].
  apply andb_true_iff in Hmax as [Hp2 Hr2].
  destruct (minLoop_int64 rest (MinValue p) Hp1 Hr1) as (lo & E1 & I1 & L1 & F1).
  destruct (maxLoop_int64 rest (MaxValue p) Hp2 Hr2) as (hi & E2 & I2 & L2 & F2).
  exists lo, hi. unfold Min, Max. repeat split; auto.
  constructor; [split; assumption|].
  rewrite Forall_forall in *. intros q Hq. split; [apply F1 | apply F2]; exact Hq.
Qed.

Lemma cmpZ_sign (a b : Z) :
  (cmpZ a b <? 0) = (a <? b) /\ (cmpZ a b <=? 0) = (a <=? b)
  /\ (cmpZ a b >? 0) = (a >? b) /\ (cmpZ a b >=? 0) = (a >=? b).
Proof.
  unfold cmpZ.
  destruct (Z.ltb_spec a b); destruct (Z.ltb_spec b a); cbn;
    repeat split; symmetry;
    first [apply Z.leb_le; lia | apply Z.leb_gt; lia
          | apply Z.gtb_lt; lia | apply Z.geb_le; lia
          | (rewrite Z.gtb_ltb; apply Z.ltb_ge; lia)
          | (rewrite Z.geb_leb; apply Z.leb_gt; lia)
          | apply Z.ltb_ge; lia | apply Z.ltb_lt; lia].
Qed.

(** Pruning is sound on an int64 column whose pages all have their
    endpoints, when the chunk has no bloom filter: if
    [BinaryScalarOperation] answers [false] for an int64 value and any of
    the six operators, no integer between the minimum and the maximum of
    any page satisfies the predicate. *)
Theorem pruning_sound_int64
        (left : ColumnChunk) (idx : ColumnIndex) (r : Z) (d : list byte)
        (operator : Op) :
  GetColumnIndex left = Ok idx ->
  forallb int64Page idx = true ->
  NullCount idx <> NumValues left ->
  BloomFilter left = None ->
  BinaryScalarOperation left (Val Int64 r d) operator = Returned (false, None) ->
  forall p v,
    In p idx ->
    asInt64 (MinValue p) <= v <= asInt64 (MaxValue p) ->
    ~ satisfies operator v (to_int64 r).
Proof.
  intros Hidx Hall Hn Hb Hres p v Hp Hv.
  assert (Hne : idx <> []) by (intros ->; contradiction).
  destruct (Min_Max_bounds idx Hne Hall) as (lo & hi & Emin & Emax & Ilo & Ihi & F).
  rewrite Forall_forall in F. destruct (F p Hp) as [Flo Fhi].
  unfold BinaryScalarOperation in Hres. rewrite Hidx in Hres.
  destruct (Z.eqb_spec (NullCount idx) (NumValues left)) as [E|_];
    [contradiction|].
  destruct lo as [|klo ulo dlo]; [discriminate|].
  destruct klo; try discriminate.
  destruct hi as [|khi uhi dhi]; [discriminate|].
  destruct khi; try discriminate.
  unfold asInt64 in *. cbn [u64] in *.
  destruct operator; cbn [is_OpEq IsNull] in Hres.
  - rewrite Hb, Emax in Hres. cbn [compare u64] in Hres.
    destruct (cmpZ_sign (to_int64 r) (to_int64 uhi)) as (_ & C2 & _ & _).
    rewrite C2 in Hres.
    destruct (Z.leb_spec (to_int64 r) (to_int64 uhi)).
    + rewrite Emin in Hres. unfold compared in Hres. cbn [compare u64] in Hres.
      destruct (cmpZ_sign (to_int64 r) (to_int64 ulo)) as (_ & _ & _ & C4).
      rewrite C4 in Hres. injection Hres as Hres.
      rewrite Z.geb_leb in Hres. apply Z.leb_gt in Hres.
      cbn [satisfies]. lia.
    + cbn [satisfies]. lia.
  - discriminate.
  - rewrite Emin in Hres. unfold endpoint, compared in Hres.
    cbn [IsNull compare u64] in Hres.
    destruct (cmpZ_sign (to_int64 ulo) (to_int64 r)) as (C1 & _ & _ & _).
    rewrite C1 in Hres. injection Hres as Hres. apply Z.ltb_ge in Hres.
    cbn [satisfies]. lia.
  - rewrite Emin in Hres. unfold endpoint, compared in Hres.
    cbn [IsNull compare u64] in Hres.
    destruct (cmpZ_sign (to_int64 ulo) (to_int64 r)) as (_ & C2 & _ & _).
    rewrite C2 in Hres. injection Hres as Hres. apply Z.leb_gt in Hres.
    cbn [satisfies]. lia.
  - rewrite Emax in Hres. unfold endpoint, compared in Hres.
    cbn [IsNull compare u64] in Hres.
    destruct (cmpZ_sign (to_int64 uhi) (to_int64 r)) as (_ & _ & C3 & _).
    rewrite C3 in Hres. injection Hres as Hres.
    rewrite Z.gtb_ltb in Hres. apply Z.ltb_ge in Hres.
    cbn [satisfies]. lia.
  - rewrite Emax in Hres. unfold endpoint, compared in Hres.
    cbn [IsNull compare u64] in Hres.
    destruct (cmpZ_sign (to_int64 uhi) (to_int64 r)) as (_ & _ & _ & C4).
    rewrite C4 in Hres. injection Hres as Hres.
    rewrite Z.geb_leb in Hres. apply Z.leb_gt in Hres.
    cbn [satisfies]. lia.
Qed.

Lemma pruning_sound_int64_witness :
  forall p v,
    In p [mkPage (Int64Value 5) (Int64Value 6) 1;
          mkPage (Int64Value 7) (Int64Value 9) 0] ->
    asInt64 (MinValue p) <= v <= asInt64 (MaxValue p) ->
    ~ satisfies OpLt v (to_int64 5).
Proof.
  apply (pruning_sound_int64 chunk_without_null_pages
           [mkPage (Int64Value 5) (Int64Value 6) 1;
            mkPage (Int64Value 7) (Int64Value 9) 0] 5 [] OpLt);
    try reflexivity.
  vm_compute. discriminate.
Defined.

Lemma NullCount_from (idx : ColumnIndex) :
  forall acc,
    0 <= acc ->
    Forall (fun p => 0 <= PageNulls p) idx ->
    acc + totalNulls idx <= MaxInt64 ->
    fold_left (fun numNulls p => to_int64 (numNulls + PageNulls p)) idx acc
    = acc + totalNulls idx.
Proof.
  induction idx as [|p rest IH]; intros acc Hacc Hall Hmax.
  - cbn. lia.
  - inversion Hall as [|? ? Hp Hrest]; subst.
    unfold totalNulls in *. cbn [map fold_right fold_left] in *.
    assert (Ht : 0 <= fold_right Z.add 0 (map PageNulls rest)).
    { clear -Hrest. induction Hrest; cbn; lia. }
    rewrite GoFacts.to_int64_small by (unfold MinInt64, MaxInt64 in *; lia).
    rewrite IH; [lia | lia | exact Hrest | lia].
Qed.

(** With null counts that are not negative and do not overflow an int64
    together, [NullCount] is their sum, and [column = NULL] keeps the chunk
    exactly when some page reports a null value; minima, maxima and the
    bloom filter are not looked at. *)
Theorem equality_with_null
        (left : ColumnChunk) (idx : ColumnIndex) :
  GetColumnIndex left = Ok idx ->
  Forall (fun p => 0 <= PageNulls p) idx ->
  totalNulls idx <= MaxInt64 ->
  NullCount idx = totalNulls idx
  /\ BinaryScalarOperation left Null OpEq
     = Returned (existsb (fun p => 0 <? PageNulls p) idx, None).
Proof.
  intros Hidx Hall Hmax.
  assert (Hn : NullCount idx = totalNulls idx).
  { unfold NullCount. rewrite NullCount_from; [lia | lia | exact Hall | lia]. }
  split; [exact Hn|].
  unfold BinaryScalarOperation. rewrite Hidx. cbn [is_OpEq IsNull].
  rewrite Hn. f_equal. f_equal.
  clear -Hall. unfold totalNulls.
  induction Hall as [|p rest Hp Hrest IH]; [reflexivity|].
  cbn [map fold_right existsb].
  assert (Ht : 0 <= fold_right Z.add 0 (map PageNulls rest)).
  { clear -Hrest. induction Hrest; cbn; lia. }
  destruct (Z.ltb_spec 0 (PageNulls p)).
  - cbn [orb]. apply Z.gtb_lt. lia.
  - cbn [orb]. rewrite <- IH. replace (PageNulls p) with 0 by lia.
    reflexivity.
Qed.

Lemma equality_with_null_witness :
  NullCount [mkPage (Int64Value 5) (Int64Value 6) 0; mkPage Null Null 3;
             mkPage (Int64Value 7) (Int64Value 7) 0] = 3
  /\ BinaryScalarOperation chunk_5_null_7 Null OpEq = Returned (true, None).
Proof.
  apply (equality_with_null chunk_5_null_7
           [mkPage (Int64Value 5) (Int64Value 6) 0; mkPage Null Null 3;
            mkPage (Int64Value 7) (Int64Value 7) 0] eq_refl).
  - repeat constructor; cbn; lia.
  - vm_compute. discriminate.
Defined.

(** Where the pages without values come first, [Min] and [Max] are the
    aggregates over the pages that have values: the least of the non-null
    page minima and the greatest of the non-null page maxima. *)
Theorem Min_Max_aggregate_when_nulls_lead (idx : ColumnIndex) :
  idx <> [] ->
  nulls_first (map MinValue idx) = true ->
  nulls_first (map MaxValue idx) = true ->
  Min idx = aggregateMin idx /\ Max idx = aggregateMax idx.
Proof.
  intros Hne H1 H2. split.
  - apply Min_nulls_first; assumption.
  - apply Max_nulls_first; assumption.
Qed.

Lemma Min_Max_aggregate_when_nulls_lead_witness :
  Min [mkPage Null Null 2; mkPage (Int64Value 5) (Int64Value 6) 0;
       mkPage (Int64Value 3) (Int64Value 9) 1]
  = aggregateMin [mkPage Null Null 2; mkPage (Int64Value 5) (Int64Value 6) 0;
                  mkPage (Int64Value 3) (Int64Value 9) 1]
  /\ Max [mkPage Null Null 2; mkPage (Int64Value 5) (Int64Value 6) 0;
          mkPage (Int64Value 3) (Int64Value 9) 1]
     = aggregateMax [mkPage Null Null 2; mkPage (Int64Value 5) (Int64Value 6) 0;
                     mkPage (Int64Value 3) (Int64Value 9) 1].
Proof.
  apply (Min_Max_aggregate_when_nulls_lead
           [mkPage Null Null 2; mkPage (Int64Value 5) (Int64Value 6) 0;
            mkPage (Int64Value 3) (Int64Value 9) 1]).
  - discriminate.
  - reflexivity.
  - reflexivity.
Defined.

End PruningFacts.

(** ** More on the file level *)

Module LevelFacts.
Import Go VFS Parquet Parts Index GoFacts VFSFacts CompactFacts RecoverFacts.

Lemma parse_zeros (k : nat) (s : string) :
  parse_digits (zeros k ++ s)%string 0 = parse_digits s 0.
Proof. induction k as [|k IH]; [reflexivity|]. cbn. exact IH. Qed.

Lemma Ext_index_file (s : string) :
  Ext (s ++ IndexFileExtension)%string = IndexFileExtension.
Proof.
  induction s as [|c s IH]; [reflexivity|].
  cbn [String.append Ext]. rewrite IH. reflexivity.
Qed.

Lemma length_append (a b : string) :
  String.length (a ++ b)%string = (String.length a + String.length b)%nat.
Proof. induction a as [|c a IH]; [reflexivity|]. cbn. f_equal. exact IH. Qed.

Lemma zeros_length (k : nat) : String.length (zeros k) = k.
Proof. induction k as [|k IH]; [reflexivity|]. cbn. f_equal. exact IH. Qed.

(** The names [createIndexFile] gives: for ids below 10^20 the number part
    has exactly twenty characters and reads back as the id, so different
    ids give different names, and the name has the extension [recover]
    looks for. *)
Theorem index_file_names (a b : Z) :
  0 <= a < 10 ^ 20 -> 0 <= b < 10 ^ 20 ->
  String.length (Format020d a) = 20%nat
  /\ parse_digits (Format020d a) 0 = Some a
  /\ (Format020d a = Format020d b -> a = b)
  /\ Ext (Format020d a ++ IndexFileExtension)%string = IndexFileExtension.
Proof.
  intros Ha Hb.
  assert (Hparse : forall n, 0 <= n < 10 ^ 20 ->
                             parse_digits (Format020d n) 0 = Some n).
  { intros n Hn. unfold Format020d. rewrite parse_zeros. unfold FormatUint.
    rewrite (parse_digits_acc 20 n "" Hn). reflexivity. }
  split.
  { unfold Format020d. rewrite length_append, zeros_length.
    pose proof (digits_acc_length_20 a). lia. }
  split; [apply Hparse, Ha|].
  split; [|apply Ext_index_file].
  intros E. pose proof (Hparse a Ha) as H1. pose proof (Hparse b Hb) as H2.
  rewrite E in H1. congruence.
Qed.

Lemma index_file_names_witness :
  String.length (Format020d 7) = 20%nat
  /\ parse_digits (Format020d 7) 0 = Some 7
  /\ (Format020d 7 = Format020d 12 -> 7 = 12)
  /\ Ext (Format020d 7 ++ IndexFileExtension)%string = IndexFileExtension.
Proof.
  apply (index_file_names 7 12); lia.
Defined.

End LevelFacts.
